(** * abnconv: CAMT.053 statement entries to QIF

    A shallow embedding of [abnconv.py]: the transaction record [Trsx], the
    narrative classifier of [process_entry] with its regular expressions, and
    the output aggregator [QIFOutput], followed by the properties of the
    specification that were checked against them.

    Conventions of the embedding.
    - Text is [string]; a character is a code point below 256.
    - An amount is a Python [float]: an IEEE 754 binary64 value, here a
      [spec_float] with precision 53 and maximal exponent 1024.
    - A raised exception is a value of [exn]; a call that can raise returns a
      [result].
    - What the Python library computes and is not modelled ([hash] of a
      string, [str] and [float] on amounts, [strptime]) is a variable of the
      section that uses it. *)

From Stdlib Require Import ZArith List String Ascii Bool Lia.
From Stdlib Require Import SpecFloat.
Import ListNotations.

Local Open Scope string_scope.

Set Implicit Arguments.

(** ** Exceptions and results *)

Inductive exn : Type :=
| ValueError (msg : string)
| KeyError (key : string)
| InterpolationError (msg : string).

Inductive result (A : Type) : Type :=
| Ok (a : A)
| Raise (e : exn).

Arguments Ok {A} a.
Arguments Raise {A} e.

Definition is_ok {A : Type} (r : result A) : bool :=
  match r with Ok _ => true | Raise _ => false end.

(** ** Python values used by the program *)

(** [None] prints as the text None under [%s] and [str.format]. *)
Definition pystr (o : option string) : string :=
  match o with Some s => s | None => "None" end.

Definition option_eqb (o1 o2 : option string) : bool :=
  match o1, o2 with
  | Some a, Some b => String.eqb a b
  | None, None => true
  | _, _ => false
  end.

(** *** Floats: binary64 *)

Module Float.

Definition prec : Z := 53.
Definition emax : Z := 1024.

Definition t : Type := spec_float.

(** The float the integer literal [-1] is converted to. *)
Definition minus_one : t := S754_finite true 4503599627370496 (-52).

Definition mul : t -> t -> t := SFmul prec emax.
Definition opp : t -> t := SFopp.

(** Python [==] on floats. *)
Definition eqb : t -> t -> bool := SFeqb.

Definition is_nan (x : t) : bool :=
  match x with S754_nan => true | _ => false end.

(** The values a Python float can hold. *)
Definition valid (x : t) : bool := valid_binary prec emax x.


End Float.

(** *** Dates: [datetime.datetime] at midnight *)

Record datetime : Type := { year : Z; month : Z; day : Z }.

Definition datetime_eqb (a b : datetime) : bool :=
  (year a =? year b)%Z && (month a =? month b)%Z && (day a =? day b)%Z.

Definition digit (n : Z) : ascii :=
  ascii_of_N (Z.to_N (48 + n mod 10)).

(** [w] decimal digits of [n], the most significant first. *)
Fixpoint zero_padded (w : nat) (n : Z) : string :=
  match w with
  | O => ""
  | S w' => zero_padded w' (n / 10) ++ String (digit n) ""
  end.

(** [strftime] with the formats %Y%m%d, %Y/%m/%d and %d/%m/%Y, for a year of
    four digits. *)
Definition strftime_Ymd (d : datetime) : string :=
  zero_padded 4 (year d) ++ zero_padded 2 (month d) ++ zero_padded 2 (day d).

Definition strftime_Y_m_d (d : datetime) : string :=
  zero_padded 4 (year d) ++ "/" ++ zero_padded 2 (month d) ++ "/"
    ++ zero_padded 2 (day d).

Definition strftime_d_m_Y (d : datetime) : string :=
  zero_padded 2 (day d) ++ "/" ++ zero_padded 2 (month d) ++ "/"
    ++ zero_padded 4 (year d).

(** ** The transaction record *)

Record Trsx : Type := {
  source_iban : string;
  dest_iban : option string;
  type : string;
  date : datetime;
  amount : Float.t;
  payee : option string;
  memo : option string;
  transaction_desc : string
}.

(** [Trsx.__eq__]; [transaction_desc] is left out of the comparison. *)
Definition Trsx_eq (self other : Trsx) : bool :=
  String.eqb (source_iban self) (source_iban other)
  && option_eqb (dest_iban self) (dest_iban other)
  && String.eqb (type self) (type other)
  && datetime_eqb (date self) (date other)
  && Float.eqb (amount self) (amount other)
  && option_eqb (payee self) (payee other)
  && option_eqb (memo self) (memo other).

(** The account registry loaded from the configuration: IBAN to name. *)
Definition registry : Type := list (string * string).

Fixpoint registry_get (accounts : registry) (iban : string) : option string :=
  match accounts with
  | [] => None
  | (k, v) :: rest => if String.eqb k iban then Some v else registry_get rest iban
  end.

(** [key in accounts]; [None] is never a key. *)
Definition registry_mem (accounts : registry) (key : option string) : bool :=
  match key with
  | Some iban => match registry_get accounts iban with Some _ => true | None => false end
  | None => false
  end.

(** ** Regular expressions

    The fragment of Python's [re] the program uses: literals, character
    classes, sequence, alternation, greedy [+] on a class, and capturing
    groups, matched by backtracking in the order [re] tries the
    alternatives. *)

Inductive regex : Type :=
| Eps
| Chr (c : ascii)
| Cls (p : ascii -> bool)
| Seq (r1 r2 : regex)
| Alt (r1 r2 : regex)
| Plus (p : ascii -> bool)
| Grp (name : string) (r : regex).

(** A literal text. *)
Fixpoint Lit (s : string) : regex :=
  match s with
  | EmptyString => Eps
  | String c rest => Seq (Chr c) (Lit rest)
  end.

(** [r{n}] *)
Fixpoint Rep (n : nat) (r : regex) : regex :=
  match n with
  | O => Eps
  | S k => Seq r (Rep k r)
  end.

Definition code (c : ascii) : N := N_of_ascii c.

Definition between (lo hi : N) (c : ascii) : bool :=
  (lo <=? code c)%N && (code c <=? hi)%N.

(** [.] : any character but the newline. *)
Definition dot (c : ascii) : bool := negb (code c =? 10)%N.

(** [\d] *)
Definition digit_class (c : ascii) : bool := between 48 57 c.

(** [\s] on text: the characters [str.isspace] accepts. *)
Definition space_class (c : ascii) : bool :=
  between 9 13 c || between 28 32 c || (code c =? 133)%N || (code c =? 160)%N.

(** [\w] on text: alphanumeric characters and the underscore. *)
Definition word_class (c : ascii) : bool :=
  between 48 57 c || between 65 90 c || (code c =? 95)%N || between 97 122 c
  || (code c =? 170)%N || between 178 179 c || (code c =? 181)%N
  || between 185 186 c || between 188 190 c || between 192 214 c
  || between 216 246 c || between 248 255 c.

Definition one_of (s : string) (c : ascii) : bool :=
  existsb (Ascii.eqb c) (list_ascii_of_string s).

(** Group spans found so far, the latest first. *)
Definition captures : Type := list (string * (nat * nat)).

Fixpoint span_of (caps : captures) (name : string) : option (nat * nat) :=
  match caps with
  | [] => None
  | (n, sp) :: rest => if String.eqb n name then Some sp else span_of rest name
  end.

Section Matcher.

Variable R : Type.

(** What remains to be matched after a sub-expression: the rest of the
    subject, the position reached and the groups. *)
Definition cont : Type := string -> nat -> captures -> option R.

(** Greedy [p*]: as many characters as possible, fewer on backtracking. *)
Fixpoint star (p : ascii -> bool) (s : string) (i : nat) (caps : captures)
  (k : cont) : option R :=
  match s with
  | String c rest =>
      if p c then
        match star p rest (S i) caps k with
        | Some r => Some r
        | None => k s i caps
        end
      else k s i caps
  | EmptyString => k s i caps
  end.

Fixpoint match_here (r : regex) (s : string) (i : nat) (caps : captures)
  (k : cont) : option R :=
  match r with
  | Eps => k s i caps
  | Chr c =>
      match s with
      | String x rest => if Ascii.eqb x c then k rest (S i) caps else None
      | EmptyString => None
      end
  | Cls p =>
      match s with
      | String x rest => if p x then k rest (S i) caps else None
      | EmptyString => None
      end
  | Seq r1 r2 =>
      match_here r1 s i caps (fun s' i' caps' => match_here r2 s' i' caps' k)
  | Alt r1 r2 =>
      match match_here r1 s i caps k with
      | Some x => Some x
      | None => match_here r2 s i caps k
      end
  | Plus p =>
      match s with
      | String x rest => if p x then star p rest (S i) caps k else None
      | EmptyString => None
      end
  | Grp name r1 =>
      match_here r1 s i caps
        (fun s' i' caps' => k s' i' ((name, (i, i')) :: caps'))
  end.

End Matcher.

(** A match object: the subject, the span of the match and of its groups. *)
Record Match : Type := {
  m_string : string;
  m_start : nat;
  m_end : nat;
  m_groups : captures
}.

(** [s[a:b]] *)
Definition slice (s : string) (a b : nat) : string := substring a (b - a) s.

(** [match.group(name)] of a group that took part in the match. *)
Definition group (m : Match) (name : string) : string :=
  match span_of (m_groups m) name with
  | Some (a, b) => slice (m_string m) a b
  | None => ""
  end.

(** The match of [r] that starts at position [i], where [s] is the subject
    from [i] on. *)
Definition match_at (r : regex) (subject s : string) (i : nat) : option Match :=
  match_here r s i []
    (fun _ j caps => Some {| m_string := subject; m_start := i; m_end := j;
                             m_groups := caps |}).

Fixpoint search_from (r : regex) (subject s : string) (i : nat) : option Match :=
  match match_at r subject s i with
  | Some m => Some m
  | None =>
      match s with
      | String _ rest => search_from r subject rest (S i)
      | EmptyString => None
      end
  end.

(** [r.search(s)]: the leftmost match. *)
Definition search (r : regex) (s : string) : option Match :=
  search_from r s s 0.

(** [r.finditer(s)] for an expression that matches no empty text: the
    matches from left to right, each search resuming where the previous
    match ended. [skip] counts the characters the previous match still
    covers. *)
Fixpoint finditer_from (r : regex) (subject s : string) (i skip : nat)
  : list Match :=
  match s with
  | EmptyString => []
  | String _ rest =>
      match skip with
      | S n => finditer_from r subject rest (S i) n
      | O =>
          match match_at r subject s i with
          | Some m => m :: finditer_from r subject rest (S i) (m_end m - i - 1)
          | None => finditer_from r subject rest (S i) 0
          end
      end
  end.

Definition finditer (r : regex) (s : string) : list Match :=
  finditer_from r s s 0 0.

(** The expressions of the program. *)

Definition BEA_re : regex :=
  Seq (Grp "subtype" (Cls (one_of "GB")))
 (Seq (Lit "EA")
 (Seq (Plus dot)
 (Seq (Rep 4 (Grp "2" (Seq (Rep 2 (Cls digit_class)) (Cls dot))))
 (Seq (Rep 2 (Cls digit_class))
 (Seq (Grp "payee" (Plus dot))
 (Seq (Lit ",PAS")
      (Grp "4" (Plus digit_class)))))))).

Definition SEPA_re : regex := Seq (Lit "/TRTP/") (Plus dot).

Definition SEPA_markers_re : regex :=
  Seq (Chr "/")
 (Seq (Grp "1"
        (Alt (Lit "TRTP") (Alt (Lit "CSID") (Alt (Lit "NAME") (Alt (Lit "MARF")
        (Alt (Lit "REMI") (Alt (Lit "IBAN") (Alt (Lit "BIC") (Lit "EREF")))))))))
      (Chr "/")).

Definition ABN_re : regex :=
  Seq (Grp "payee"
        (Seq (Lit "ABN AMRO Bank N") (Seq (Cls dot) (Seq (Chr "V") (Cls dot)))))
 (Seq (Plus space_class)
 (Seq (Grp "memo" (Plus word_class))
      (Plus dot))).

Definition SPAREN_re : regex :=
  Seq (Lit "ACCOUNT BALANCED")
 (Seq (Plus space_class)
 (Seq (Grp "memo" (Seq (Lit "CREDIT INTEREST") (Plus dot)))
      (Lit "For interest rates"))).

(** ** The output templates *)

Definition nl : string := String (ascii_of_nat 10) "".

Definition dquote : string := String (ascii_of_nat 34) "".

(** [qif_account_tpl.format(name=..., type=...)] *)
Definition qif_account_tpl (name type_ : string) : string :=
  "!Account" ++ nl ++ "N" ++ name ++ nl ++ "T" ++ type_ ++ nl ++ "^".

(** [qif_tpl_plain_tsx.format(...)] *)
Definition qif_tpl_plain_tsx (type_ date_ amount_ payee_ memo_ ledger : string)
  : string :=
  "!Type:" ++ type_ ++ nl ++ "D" ++ date_ ++ nl ++ "T" ++ amount_ ++ nl
    ++ "C" ++ nl ++ "P" ++ payee_ ++ nl ++ "M" ++ memo_ ++ nl
    ++ "L" ++ ledger ++ nl ++ "^".

(** ** The statement entries read from the XML document *)

(** One [Ntry] element: the texts of [ValDt/Dt], [Amt], [CdtDbtInd] and
    [AddtlNtryInf]. *)
Record Ntry : Type := {
  ValDt : string;
  Amt : string;
  CdtDbtInd : string;
  AddtlNtryInf : string
}.

(** A source file: a CAMT.053 document with the IBAN of its statement and its
    entries, or a file with another extension. *)
Inductive source_file : Type :=
| Xml (account_iban : string) (entries : list Ntry)
| Other.

(** ** The state of the output aggregator *)

(** An insertion-ordered dictionary from account to its list of blocks. *)
Definition groups : Type := list (string * list string).

Fixpoint dict_get (d : groups) (k : string) : option (list string) :=
  match d with
  | [] => None
  | (k', v) :: rest => if String.eqb k' k then Some v else dict_get rest k
  end.

Definition dict_mem (d : groups) (k : string) : bool :=
  match dict_get d k with Some _ => true | None => false end.

(** [d[k] = v]: a new key goes last, a known key keeps its place. *)
Fixpoint dict_set (d : groups) (k : string) (v : list string) : groups :=
  match d with
  | [] => [(k, v)]
  | (k', v') :: rest =>
      if String.eqb k' k then (k', v) :: rest else (k', v') :: dict_set rest k v
  end.

(** [d[k].append(x)] for a key of [d]. *)
Fixpoint dict_append (d : groups) (k : string) (x : string) : groups :=
  match d with
  | [] => []
  | (k', v') :: rest =>
      if String.eqb k' k then (k', (v' ++ [x])%list) :: rest
      else (k', v') :: dict_append rest k x
  end.

Module QIFOutput.

Record t : Type := {
  output_file : list string;
  accounts : groups;
  _transaction_list : list Trsx;
  added : nat;
  skipped : nat
}.

End QIFOutput.

(** A method of the aggregator: it may change the state and then return or
    raise; the state reached is kept in both cases. *)
Definition M (A : Type) : Type := QIFOutput.t -> result A * QIFOutput.t.

Definition ret {A : Type} (a : A) : M A := fun q => (Ok a, q).

Definition bind {A B : Type} (m : M A) (f : A -> M B) : M B :=
  fun q =>
    match m q with
    | (Ok a, q') => f a q'
    | (Raise e, q') => (Raise e, q')
    end.

Definition lift {A : Type} (r : result A) : M A := fun q => (r, q).

Definition get : M QIFOutput.t := fun q => (Ok q, q).

Definition modify (f : QIFOutput.t -> QIFOutput.t) : M unit :=
  fun q => (Ok tt, f q).

Declare Scope qif_scope.
Delimit Scope qif_scope with qif.
Notation "x <- m ;; k" := (bind m (fun x => k))
  (at level 61, m at next level, right associativity) : qif_scope.
Notation "m ;; k" := (bind m (fun _ => k))
  (at level 61, right associativity) : qif_scope.

Definition set_accounts (f : groups -> groups) (q : QIFOutput.t) : QIFOutput.t :=
  {| QIFOutput.output_file := QIFOutput.output_file q;
     QIFOutput.accounts := f (QIFOutput.accounts q);
     QIFOutput._transaction_list := QIFOutput._transaction_list q;
     QIFOutput.added := QIFOutput.added q;
     QIFOutput.skipped := QIFOutput.skipped q |}.

Definition set_transaction_list (f : list Trsx -> list Trsx) (q : QIFOutput.t)
  : QIFOutput.t :=
  {| QIFOutput.output_file := QIFOutput.output_file q;
     QIFOutput.accounts := QIFOutput.accounts q;
     QIFOutput._transaction_list := f (QIFOutput._transaction_list q);
     QIFOutput.added := QIFOutput.added q;
     QIFOutput.skipped := QIFOutput.skipped q |}.

Definition incr_added (q : QIFOutput.t) : QIFOutput.t :=
  {| QIFOutput.output_file := QIFOutput.output_file q;
     QIFOutput.accounts := QIFOutput.accounts q;
     QIFOutput._transaction_list := QIFOutput._transaction_list q;
     QIFOutput.added := S (QIFOutput.added q);
     QIFOutput.skipped := QIFOutput.skipped q |}.

Definition incr_skipped (q : QIFOutput.t) : QIFOutput.t :=
  {| QIFOutput.output_file := QIFOutput.output_file q;
     QIFOutput.accounts := QIFOutput.accounts q;
     QIFOutput._transaction_list := QIFOutput._transaction_list q;
     QIFOutput.added := QIFOutput.added q;
     QIFOutput.skipped := S (QIFOutput.skipped q) |}.

Definition print_to_file (lines : list string) (q : QIFOutput.t) : QIFOutput.t :=
  {| QIFOutput.output_file := (QIFOutput.output_file q ++ lines)%list;
     QIFOutput.accounts := QIFOutput.accounts q;
     QIFOutput._transaction_list := QIFOutput._transaction_list q;
     QIFOutput.added := QIFOutput.added q;
     QIFOutput.skipped := QIFOutput.skipped q |}.

(** ** The program *)

Section Program.

(** The global [accounts], filled by [_load_accounts] before the run. *)
Variable accounts : registry.

(** [hash] on [str], [str] on [float], [float] on [str] and
    [datetime.strptime(_, "%Y-%m-%d")] of the Python runtime. *)
Variable hash : string -> Z.
Variable str_float : Float.t -> string.
Variable float : string -> result Float.t.
Variable strptime : string -> result datetime.

Local Open Scope qif_scope.

(** *** [Trsx] *)

(** The text [Trsx.__hash__] hashes. *)
Definition fingerprint (self : Trsx) : string :=
  source_iban self ++ "-" ++ pystr (dest_iban self) ++ "-"
    ++ strftime_Ymd (date self) ++ "-" ++ str_float (amount self) ++ "/"
    ++ pystr (memo self).

Definition Trsx_hash (self : Trsx) : Z := hash (fingerprint self).

Definition is_transfer_transaction (self : Trsx) : bool :=
  registry_mem accounts (dest_iban self).

Definition complementary (self : Trsx) : result Trsx :=
  if negb (is_transfer_transaction self) then
    Raise (ValueError "Complementary Trsx available only for transfer transactions")
  else
    match dest_iban self with
    | Some dest =>
        Ok {| source_iban := dest;
              dest_iban := Some (source_iban self);
              type := type self;
              date := date self;
              amount := Float.mul (amount self) Float.minus_one;
              payee := payee self;
              memo := memo self;
              transaction_desc := transaction_desc self |}
    | None =>
        (* not reached: [None] is no key of [accounts] *)
        Raise (ValueError "Complementary Trsx available only for transfer transactions")
    end.

Definition _get_account (iban : string) : result string :=
  match registry_get accounts iban with
  | Some name => Ok name
  | None => Raise (KeyError iban)
  end.

(** [v if v else ''] *)
Definition nn (v : option string) : string :=
  match v with Some s => s | None => "" end.

Definition get_qif_tx (self : Trsx) : result string :=
  let render memo_ ledger :=
    qif_tpl_plain_tsx (type self) (strftime_Y_m_d (date self))
      (str_float (amount self)) (nn (payee self)) memo_ ledger in
  if is_transfer_transaction self then
    let memo_ := match memo self with None => "Transfer" | Some _ => nn (memo self) end in
    match dest_iban self with
    | Some dest =>
        match _get_account dest with
        | Ok name => Ok (render memo_ ("[" ++ name ++ "]"))
        | Raise e => Raise e
        end
    | None => Raise (KeyError "None")
    end
  else Ok (render (nn (memo self)) "").

(** *** [process_entry] *)

(** The loop of [find_sepa_field] over the markers; [start] is the end of the
    latest marker of the requested field, and is tested for truth. *)
Fixpoint find_sepa_loop (transaction_info field : string)
  (markers : list Match) (start : option nat) : option string :=
  match markers with
  | [] => None
  | marker_match :: rest =>
      if String.eqb (group marker_match "1") field then
        find_sepa_loop transaction_info field rest (Some (m_end marker_match))
      else
        match start with
        | Some (S n) => Some (slice transaction_info (S n) (m_start marker_match))
        | _ => find_sepa_loop transaction_info field rest start
        end
  end.

Definition find_sepa_field (transaction_info field : string) : option string :=
  match search SEPA_re transaction_info with
  | Some _ =>
      find_sepa_loop transaction_info field
        (finditer SEPA_markers_re transaction_info) None
  | None => None
  end.

Fixpoint first_match (table : list (string * regex)) (transaction_info : string)
  : option string * option Match :=
  match table with
  | [] => (None, None)
  | (_type, regexp) :: rest =>
      match search regexp transaction_info with
      | Some _match => (Some _type, Some _match)
      | None => first_match rest transaction_info
      end
  end.

Definition _get_regex (transaction_info : string) : option string * option Match :=
  first_match
    [("bea", BEA_re); ("sepa", SEPA_re); ("abn", ABN_re); ("sparen", SPAREN_re)]
    transaction_info.

Definition unsupported (transaction_info : string) : exn :=
  ValueError ("Transaction type not supported for " ++ dquote ++ transaction_info
                ++ dquote).

Definition process_entry (account_iban : string) (elem : Ntry) : result Trsx :=
  match strptime (ValDt elem) with
  | Raise e => Raise e
  | Ok date_ =>
  match float (Amt elem) with
  | Raise e => Raise e
  | Ok magnitude =>
  let amount_ :=
    if String.eqb (CdtDbtInd elem) "DBIT"
    then Float.mul magnitude Float.minus_one else magnitude in
  let transaction_info := AddtlNtryInf elem in
  let tsx type_ payee_ memo_ dest :=
    {| source_iban := account_iban; dest_iban := dest; type := type_;
       date := date_; amount := amount_; payee := payee_; memo := memo_;
       transaction_desc := transaction_info |} in
  match _get_regex transaction_info with
  | (Some tx_type, Some match_) =>
      if String.eqb tx_type "bea" then
        Ok (tsx (if String.eqb (group match_ "subtype") "B" then "Bank" else "Cash")
                (Some (group match_ "payee")) (Some transaction_info) None)
      else if String.eqb tx_type "sepa" then
        Ok (tsx "Bank" (find_sepa_field transaction_info "NAME")
                (find_sepa_field transaction_info "REMI")
                (find_sepa_field transaction_info "IBAN"))
      else if String.eqb tx_type "abn" then
        Ok (tsx "Bank" (Some (group match_ "payee")) (Some (group match_ "memo")) None)
      else if String.eqb tx_type "sparen" then
        Ok (tsx "Bank" (Some "ABN AMRO Bank N.V.") (Some (group match_ "memo")) None)
      else Raise (unsupported transaction_info)
  | _ => Raise (unsupported transaction_info)
  end
  end
  end.

(** *** [QIFOutput] *)

(** [transaction in self._transaction_list]: an element with the same hash
    that is equal to it. The set is kept in the order of insertion. A lookup
    also succeeds on the very object that was inserted; the records added in
    a run are all made anew, and a record here is a value, not an object. *)
Definition set_contains (s : list Trsx) (transaction : Trsx) : bool :=
  existsb (fun e => (Trsx_hash e =? Trsx_hash transaction)%Z && Trsx_eq e transaction) s.

Definition set_add (s : list Trsx) (transaction : Trsx) : list Trsx :=
  if set_contains s transaction then s else (s ++ [transaction])%list.

Definition __init__ : QIFOutput.t :=
  {| QIFOutput.output_file := [];
     QIFOutput.accounts := [];
     QIFOutput._transaction_list := [];
     QIFOutput.added := 0;
     QIFOutput.skipped := 0 |}.

(** [open(path, 'w')]: the file exists and is empty. *)
Definition __enter__ (q : QIFOutput.t) : QIFOutput.t :=
  {| QIFOutput.output_file := [];
     QIFOutput.accounts := QIFOutput.accounts q;
     QIFOutput._transaction_list := QIFOutput._transaction_list q;
     QIFOutput.added := QIFOutput.added q;
     QIFOutput.skipped := QIFOutput.skipped q |}.

(** The entries printed to the file, one [print] each; the exception, if
    any, is not looked at. *)
Definition __exit__ (q : QIFOutput.t) : QIFOutput.t :=
  print_to_file (List.concat (map snd (QIFOutput.accounts q))) q.

(** The list returned is the one stored under [account]: the caller appends
    to that entry. *)
Definition _get_list (account : string) : M unit :=
  q <- get ;;
  if negb (dict_mem (QIFOutput.accounts q) account) then
    modify (set_accounts (fun d => dict_set d account [])) ;;
    name <- lift (_get_account account) ;;
    modify (set_accounts (fun d => dict_append d account (qif_account_tpl name "Bank")))
  else ret tt.

(** The line printed under [args.verbose] goes to the standard output and is
    not part of the state. *)
Definition __iadd__ (transaction : Trsx) : M unit :=
  q <- get ;;
  if negb (set_contains (QIFOutput._transaction_list q) transaction) then
    _get_list (source_iban transaction) ;;
    block <- lift (get_qif_tx transaction) ;;
    modify (set_accounts (fun d => dict_append d (source_iban transaction) block)) ;;
    modify (set_transaction_list (fun s => set_add s transaction)) ;;
    modify incr_added
  else
    modify incr_skipped.

(** *** The main loop *)

(** [for _trsx in _trsx_list(file): out += _trsx] on the entries of one
    document: the generator runs up to its next [yield] between two
    additions. The test [if trsx] of the generator holds for every record. *)
Fixpoint add_entries (account_iban : string) (entries : list Ntry) : M unit :=
  match entries with
  | [] => ret tt
  | elem :: rest =>
      trsx <- lift (process_entry account_iban elem) ;;
      __iadd__ trsx ;;
      (if is_transfer_transaction trsx then
         compl <- lift (complementary trsx) ;;
         __iadd__ compl
       else ret tt) ;;
      add_entries account_iban rest
  end.

Definition add_file (file : source_file) : M unit :=
  match file with
  | Xml account_iban entries => add_entries account_iban entries
  | Other => lift (Raise (ValueError "Only CAM.53 XML files are supported"))
  end.

Fixpoint add_files (files : list source_file) : M unit :=
  match files with
  | [] => ret tt
  | file :: rest => add_file file ;; add_files rest
  end.

(** [with QIFOutput(out_path) as out: ...]: [__exit__] runs when the body
    returns and when it raises, and the exception goes on. *)
Definition main (files : list source_file) : result unit * QIFOutput.t :=
  let (r, q) := add_files files (__enter__ __init__) in
  (r, __exit__ q).

End Program.

(** ** A runtime for closed evaluations

    The theorems below hold for every [hash], [str], [float] and [strptime];
    the closed examples need some. [py_float] reads an unsigned decimal
    number with at most fifteen digits, or the text nan, and rounds it to
    the nearest float; [py_strptime] reads four, two and two digits between
    hyphens; [py_str_float] writes sign, mantissa and exponent. *)

Definition digit_value (c : ascii) : Z := Z.of_N (code c) - 48.

Fixpoint all_digits (s : string) : bool :=
  match s with
  | EmptyString => true
  | String c rest => digit_class c && all_digits rest
  end.

Fixpoint decimal_value (s : string) (acc : Z) : Z :=
  match s with
  | EmptyString => acc
  | String c rest => decimal_value rest (10 * acc + digit_value c)
  end.

Fixpoint split_at_point (s : string) : string * option string :=
  match s with
  | EmptyString => (EmptyString, None)
  | String c rest =>
      if Ascii.eqb c "." then (EmptyString, Some rest)
      else let (a, b) := split_at_point rest in (String c a, b)
  end.

Definition float_of_Z (n : Z) : Float.t :=
  binary_normalize Float.prec Float.emax n 0 false.

Definition py_float (s : string) : result Float.t :=
  if String.eqb s "nan" then Ok S754_nan
  else
    let (int_part, frac) := split_at_point s in
    let frac_part := match frac with Some f => f | None => EmptyString end in
    let digits := int_part ++ frac_part in
    if all_digits digits && (1 <=? String.length digits)%nat
       && (String.length digits <=? 15)%nat
    then Ok (SFdiv Float.prec Float.emax
               (float_of_Z (decimal_value digits 0))
               (float_of_Z (10 ^ Z.of_nat (String.length frac_part))))
    else Raise (ValueError ("could not convert string to float: " ++ s)).

Definition py_strptime (s : string) : result datetime :=
  let y := substring 0 4 s in
  let m := substring 5 2 s in
  let d := substring 8 2 s in
  if (String.length s =? 10)%nat && all_digits (y ++ m ++ d)
     && String.eqb (substring 4 1 s) "-" && String.eqb (substring 7 1 s) "-"
  then Ok {| year := decimal_value y 0; month := decimal_value m 0;
             day := decimal_value d 0 |}
  else Raise (ValueError ("time data does not match format: " ++ s)).

Fixpoint decimal_digits (fuel : nat) (n : Z) : string :=
  match fuel with
  | O => ""
  | S k => (if (n <? 10)%Z then "" else decimal_digits k (n / 10))
             ++ String (digit n) ""
  end.

Definition Z_to_string (n : Z) : string :=
  (if (n <? 0)%Z then "-" else "") ++ decimal_digits 400 (Z.abs n).

Definition py_str_float (x : Float.t) : string :=
  match x with
  | S754_nan => "nan"
  | S754_infinity s => if s then "-inf" else "inf"
  | S754_zero s => if s then "-0.0" else "0.0"
  | S754_finite s m e =>
      (if s then "-" else "") ++ Z_to_string (Z.pos m) ++ "p" ++ Z_to_string e
  end.

Definition py_hash (s : string) : Z :=
  fold_left (fun h c => (31 * h + Z.of_N (code c)) mod 2305843009213693951)%Z
    (list_ascii_of_string s) 7%Z.

(** [n] binary digits appended to [m]. *)
Fixpoint shl (n : nat) (m : positive) : positive :=
  match n with
  | O => m
  | S k => xO (shl k m)
  end.

(** ** The generator [_trsx_list] on its own

    What the generator yields before it ends, and the exception that ends
    it, if one does: for every entry the record made of it, followed by the
    complement when the record is a transfer. *)

Section Generator.

Variable accounts : registry.
Variable float : string -> result Float.t.
Variable strptime : string -> result datetime.

Fixpoint yield_entries (account_iban : string) (entries : list Ntry)
  : list Trsx * option exn :=
  match entries with
  | [] => ([], None)
  | elem :: rest =>
      match process_entry float strptime account_iban elem with
      | Raise e => ([], Some e)
      | Ok trsx =>
          if is_transfer_transaction accounts trsx then
            match complementary accounts trsx with
            | Ok compl =>
                let (more, err) := yield_entries account_iban rest in
                (trsx :: compl :: more, err)
            | Raise e => ([trsx], Some e)
            end
          else
            let (more, err) := yield_entries account_iban rest in
            (trsx :: more, err)
      end
  end.

Definition _trsx_list (file : source_file) : list Trsx * option exn :=
  match file with
  | Xml account_iban entries => yield_entries account_iban entries
  | Other => ([], Some (ValueError "Only CAM.53 XML files are supported"))
  end.

(** The records of the files of a run, up to the first exception. *)
Fixpoint trsx_of_files (files : list source_file) : list Trsx * option exn :=
  match files with
  | [] => ([], None)
  | file :: rest =>
      match _trsx_list file with
      | (ys, Some e) => (ys, Some e)
      | (ys, None) =>
          let (more, err) := trsx_of_files rest in ((ys ++ more)%list, err)
      end
  end.

End Generator.

(** The outcome of adding what a generator yields: the exception of an
    addition, else the exception that ended the generator, else none. *)
Definition finish (added_ : result unit * QIFOutput.t) (err : option exn)
  : result unit * QIFOutput.t :=
  match added_ with
  | (Ok _, q) => (match err with Some e => Raise e | None => Ok tt end, q)
  | (Raise e, q) => (Raise e, q)
  end.

(** ** [_load_accounts]

    One section of the configuration file, as [configparser] presents it.
    An option is absent or present, which is what ['name' in account_conf]
    tests; reading a present option with [account_conf[...]] interpolates
    its value, and that gives a text or raises [InterpolationError], as it
    does for a value with a lone percent sign. *)

Record account_conf : Type := {
  conf_iban : option (result string);
  conf_name : option (result string)
}.

(** [account_conf[key]]: an absent option raises KeyError. *)
Definition section_getitem (o : option (result string)) (key : string)
  : result string :=
  match o with
  | None => Raise (KeyError key)
  | Some value => value
  end.

(** [_accounts[k] = v]: a known key gets the new value, a new key goes
    last. *)
Fixpoint registry_set (accounts : registry) (k v : string) : registry :=
  match accounts with
  | [] => [(k, v)]
  | (k', v') :: rest =>
      if String.eqb k' k then (k', v) :: rest
      else (k', v') :: registry_set rest k v
  end.

(** The loop of [_load_accounts] over the sections: the option iban is read
    first, then the option name when the section has it. *)
Fixpoint load_sections (sections : list account_conf) (_accounts : registry)
  : result registry :=
  match sections with
  | [] => Ok _accounts
  | account_conf :: rest =>
      match section_getitem (conf_iban account_conf) "iban" with
      | Raise e => Raise e
      | Ok _acc_iban =>
          match
            match conf_name account_conf with
            | Some _ => section_getitem (conf_name account_conf) "name"
            | None => Ok _acc_iban
            end
          with
          | Raise e => Raise e
          | Ok name => load_sections rest (registry_set _accounts _acc_iban name)
          end
      end
  end.

Definition _load_accounts (sections : list account_conf) : result registry :=
  load_sections sections [].

(** The exception reading a section ends with, if any. *)
Definition section_error (c : account_conf) : option exn :=
  match conf_iban c with
  | None => Some (KeyError "iban")
  | Some (Raise e) => Some e
  | Some (Ok _) =>
      match conf_name c with
      | Some (Raise e) => Some e
      | _ => None
      end
  end.

(** The section configures the account [iban]. *)
Definition configures (c : account_conf) (iban : string) : bool :=
  match conf_iban c with
  | Some (Ok k) => String.eqb k iban
  | _ => false
  end.

(** The name a section gives to its account. *)
Definition display_name (c : account_conf) (iban : string) : string :=
  match conf_name c with Some (Ok name) => name | _ => iban end.

(** The last section of the file that configures [iban]. *)
Definition section_of (sections : list account_conf) (iban : string)
  : option account_conf :=
  find (fun c => configures c iban) (rev sections).

(** ** Notions used to state the properties *)

(** [c] is [t] seen from the other account. *)
Definition mirrored (t c : Trsx) : Prop :=
  dest_iban t = Some (source_iban c)
  /\ dest_iban c = Some (source_iban t)
  /\ amount c = Float.mul (amount t) Float.minus_one
  /\ (Float.valid (amount t) = true -> amount c = Float.opp (amount t))
  /\ date c = date t
  /\ type c = type t
  /\ payee c = payee t
  /\ memo c = memo t
  /\ transaction_desc c = transaction_desc t.

(** The field a marker announces. *)
Definition tag (m : Match) : string := group m "1".

(** The same transaction: all the fields [Trsx.__eq__] looks at coincide. *)
Definition same_fields (t1 t2 : Trsx) : Prop :=
  source_iban t1 = source_iban t2
  /\ dest_iban t1 = dest_iban t2
  /\ type t1 = type t2
  /\ date t1 = date t2
  /\ amount t1 = amount t2
  /\ payee t1 = payee t2
  /\ memo t1 = memo t2.


Definition mem_string (a : string) (l : list string) : bool :=
  existsb (String.eqb a) l.

Section Grouping.

Variable accounts : registry.
Variable hash : string -> Z.
Variable str_float : Float.t -> string.

Local Open Scope qif_scope.

(** A sequence of additions. *)
Fixpoint add_all (ts : list Trsx) : M unit :=
  match ts with
  | [] => ret tt
  | t :: rest => __iadd__ accounts hash str_float t ;; add_all rest
  end.

(** The records of a sequence that are not duplicates of an earlier one. *)
Definition accepted_of (ts : list Trsx) : list Trsx :=
  fold_left (set_add hash str_float) ts [].

(** The accounts of the records, each once, in the order of their first
    record. *)
Definition first_seen (l : list Trsx) : list string :=
  fold_left
    (fun seen t =>
       if mem_string (source_iban t) seen then seen
       else (seen ++ [source_iban t])%list)
    l [].

Definition header_of (account : string) : string :=
  qif_account_tpl
    (match registry_get accounts account with Some name => name | None => "" end)
    "Bank".

Definition block_of (t : Trsx) : string :=
  match get_qif_tx accounts str_float t with Ok block => block | Raise _ => "" end.

(** The blocks of the records of one account, in the order of the records. *)
Definition blocks_of (account : string) (l : list Trsx) : list string :=
  map block_of (filter (fun t => String.eqb (source_iban t) account) l).

(** The document the specification describes for the accepted records [l]:
    one group per account, a header and then the blocks. *)
Definition grouped (l : list Trsx) : groups :=
  map (fun a => (a, header_of a :: blocks_of a l)) (first_seen l).

(** The state after [transaction] was accepted and the groups became [d]. *)
Definition accepted_state (q : QIFOutput.t) (transaction : Trsx) (d : groups)
  : QIFOutput.t :=
  {| QIFOutput.output_file := QIFOutput.output_file q;
     QIFOutput.accounts := d;
     QIFOutput._transaction_list :=
       set_add hash str_float (QIFOutput._transaction_list q) transaction;
     QIFOutput.added := S (QIFOutput.added q);
     QIFOutput.skipped := QIFOutput.skipped q |}.

(** The groups are those of the accepted records, which are counted, and
    nothing is written yet. *)
Definition consistent (q : QIFOutput.t) : Prop :=
  QIFOutput.accounts q = grouped (QIFOutput._transaction_list q)
  /\ QIFOutput.added q = List.length (QIFOutput._transaction_list q)
  /\ QIFOutput.output_file q = [].

(** The same up to groups that are still empty. *)
Definition printable (q : QIFOutput.t) : Prop :=
  List.concat (map snd (QIFOutput.accounts q))
  = List.concat (map snd (grouped (QIFOutput._transaction_list q)))
  /\ QIFOutput.added q = List.length (QIFOutput._transaction_list q)
  /\ QIFOutput.output_file q = [].

(** From a state in [P] the method returns in [Q] or raises in [E]. *)
Definition triple {A : Type} (P : QIFOutput.t -> Prop) (m : M A)
  (Q : A -> QIFOutput.t -> Prop) (E : QIFOutput.t -> Prop) : Prop :=
  forall q, P q ->
    match m q with
    | (Ok a, q') => Q a q'
    | (Raise _, q') => E q'
    end.

End Grouping.

(** Whether [r.search(s)] finds a match. *)
Definition matched (r : regex) (s : string) : bool :=
  match search r s with Some _ => true | None => false end.

(** The names [SEPA_markers_re] accepts between two slashes. *)
Definition marker_tags : list string :=
  ["TRTP"; "CSID"; "NAME"; "MARF"; "REMI"; "IBAN"; "BIC"; "EREF"].

(** [m] is a marker of [subject]: the text /TAG/ for one of the eight names,
    inside the subject, with the name as its group. *)
Definition is_marker (subject : string) (m : Match) : Prop :=
  In (tag m) marker_tags
  /\ m_end m = m_start m + String.length (tag m) + 2
  /\ m_end m <= String.length subject
  /\ slice subject (m_start m) (m_end m) = "/" ++ tag m ++ "/".

(** Markers laid out from position [lo] on, from left to right, none
    reaching into the next. *)
Inductive laid_out (subject : string) : nat -> list Match -> Prop :=
| laid_out_nil (lo : nat) : laid_out subject lo []
| laid_out_cons (lo : nat) (m : Match) (ms : list Match) :
    lo <= m_start m -> is_marker subject m -> laid_out subject (m_end m) ms ->
    laid_out subject lo (m :: ms).

(** A zero amount, of either sign. *)
Definition amount_is_zero (x : Float.t) : bool :=
  match x with S754_zero _ => true | _ => false end.

(** ** Sample data for the closed examples *)

Definition twelve_fifty : Float.t := S754_finite false 7036874417766400 (-49).

Definition jan2 : datetime := {| year := 2024; month := 1; day := 2 |}.

(** Both accounts are registered. *)
Definition two_accounts : registry :=
  [("NL01ABNA0000000001", "Checking"); ("NL02ABNA0000000002", "Savings")].

(** Only the savings account is registered. *)
Definition savings_only : registry := [("NL02ABNA0000000002", "Savings")].

Definition to_savings (a : Float.t) : Trsx :=
  {| source_iban := "NL01ABNA0000000001";
     dest_iban := Some "NL02ABNA0000000002";
     type := "Bank"; date := jan2; amount := a;
     payee := Some "J SMITH"; memo := Some "INVOICE 42";
     transaction_desc := "/TRTP/SEPA/NAME/J SMITH/REMI/INVOICE 42/IBAN/NL02ABNA0000000002/EREF/X" |}.

Definition groceries : Trsx :=
  {| source_iban := "NL01ABNA0000000001";
     dest_iban := None;
     type := "Bank"; date := jan2; amount := Float.opp twelve_fifty;
     payee := Some "GROCERY STORE"; memo := Some "BEA GROCERY STORE";
     transaction_desc := "BEA GROCERY STORE" |}.


Definition with_desc (d : string) (t : Trsx) : Trsx :=
  {| source_iban := source_iban t; dest_iban := dest_iban t; type := type t;
     date := date t; amount := amount t; payee := payee t; memo := memo t;
     transaction_desc := d |}.

(** The state after the records [ts] were added to a new aggregator, with
    the sample runtime and both accounts registered. *)
Definition after_adding (ts : list Trsx) : QIFOutput.t :=
  snd (add_all two_accounts py_hash py_str_float ts __init__).

(** A debit of 12.50 to the savings account, and an entry whose narrative no
    expression matches. *)
Definition sepa_debit : Ntry :=
  {| ValDt := "2024-01-02"; Amt := "12.50"; CdtDbtInd := "DBIT";
     AddtlNtryInf := "/TRTP/SEPA/NAME/J SMITH/REMI/INVOICE 42/IBAN/NL02ABNA0000000002/EREF/X" |}.


Definition unknown_entry : Ntry :=
  {| ValDt := "2024-01-03"; Amt := "5.00"; CdtDbtInd := "CRDT";
     AddtlNtryInf := "STORTING 12345" |}.





(** * Properties *)

(** ** Equality tests *)

Lemma option_eqb_refl (o : option string) : option_eqb o o = true.
Proof. destruct o; simpl; [apply String.eqb_refl | reflexivity]. Qed.

Lemma option_eqb_eq (o1 o2 : option string) :
  option_eqb o1 o2 = true <-> o1 = o2.
Proof.
  destruct o1 as [a|], o2 as [b|]; simpl; split; intro H;
    try discriminate; try reflexivity.
  - apply String.eqb_eq in H. now subst.
  - injection H as ->. apply String.eqb_refl.
Qed.

Lemma datetime_eqb_refl (d : datetime) : datetime_eqb d d = true.
Proof. unfold datetime_eqb. now rewrite !Z.eqb_refl. Qed.

Lemma datetime_eqb_eq (a b : datetime) : datetime_eqb a b = true <-> a = b.
Proof.
  unfold datetime_eqb. destruct a, b; simpl. split.
  - intro H. apply andb_prop in H as [H Hd]. apply andb_prop in H as [Hy Hm].
    apply Z.eqb_eq in Hy, Hm, Hd. now subst.
  - intro H. injection H as -> -> ->. now rewrite !Z.eqb_refl.
Qed.

(** ** Floats: multiplying by [-1] flips the sign *)

Module FloatFacts.

Lemma mul_pow52 (m : positive) : (m * 4503599627370496)%positive = shl 52 m.
Proof. rewrite Pos.mul_comm. reflexivity. Qed.

Lemma digits_shl (n : nat) (m : positive) :
  Z.pos (digits2_pos (shl n m)) = (Z.pos (digits2_pos m) + Z.of_nat n)%Z.
Proof.
  induction n as [|n IH]; [simpl; lia|].
  change (shl (S n) m) with (xO (shl n m)). cbn [digits2_pos]. lia.
Qed.

Lemma shr_shl52 (m : positive) (e : Z) :
  shr (shr_record_of_loc (Z.pos (shl 52 m)) loc_Exact) (e + -52) 52
  = (Build_shr_record (Z.pos m) false false, (e + -52 + 52)%Z).
Proof. vm_compute. reflexivity. Qed.

Lemma mul_minus_one_finite (s : bool) (m : positive) (e : Z) :
  bounded Float.prec Float.emax m e = true ->
  Float.mul (S754_finite s m e) Float.minus_one = S754_finite (negb s) m e.
Proof.
  intro H. unfold bounded, canonical_mantissa in H.
  apply andb_prop in H as [Hc Hb]. apply Z.eqb_eq in Hc.
  unfold Float.mul, Float.minus_one, SFmul, binary_round_aux, shr_fexp, Zdigits2.
  rewrite mul_pow52, digits_shl.
  replace (Z.pos (digits2_pos m) + Z.of_nat 52 + (e + -52))%Z
    with (Z.pos (digits2_pos m) + e)%Z by lia.
  rewrite Hc. replace (e - (e + -52))%Z with 52%Z by lia.
  rewrite shr_shl52.
  cbn [shr_m loc_of_shr_record round_nearest_even shr_record_of_loc].
  replace (e + -52 + 52)%Z with e by lia.
  rewrite Hc, Z.sub_diag. cbn [shr shr_m]. rewrite Hb. now destruct s.
Qed.

Lemma mul_minus_one (x : Float.t) :
  Float.valid x = true -> Float.mul x Float.minus_one = Float.opp x.
Proof.
  destruct x as [s|s| |s m e]; intro H; try (now destruct s); try reflexivity.
  now apply mul_minus_one_finite.
Qed.

Lemma opp_involutive (x : Float.t) : Float.opp (Float.opp x) = x.
Proof. destruct x as [s|s| |s m e]; simpl; now rewrite ?negb_involutive. Qed.

Lemma valid_opp (x : Float.t) : Float.valid (Float.opp x) = Float.valid x.
Proof. now destruct x. Qed.

Lemma is_nan_opp (x : Float.t) : Float.is_nan (Float.opp x) = Float.is_nan x.
Proof. now destruct x. Qed.

Lemma compare_cont_refl (m : positive) : Pos.compare_cont Eq m m = Eq.
Proof. apply Pos.compare_refl. Qed.

Lemma eqb_refl (x : Float.t) : Float.is_nan x = false -> Float.eqb x x = true.
Proof.
  destruct x as [s|s| |s m e]; intro H; try discriminate H;
    unfold Float.eqb, SFeqb, SFcompare; try (now destruct s).
  destruct s; rewrite Z.compare_refl, compare_cont_refl; reflexivity.
Qed.

Lemma eqb_nan (x : Float.t) : Float.eqb S754_nan x = false.
Proof. reflexivity. Qed.


End FloatFacts.

(** ** The transaction record *)

Section TrsxFacts.

Variable accounts : registry.

Lemma is_transfer_dest (t : Trsx) :
  is_transfer_transaction accounts t = true ->
  exists dest, dest_iban t = Some dest /\ registry_mem accounts (Some dest) = true.
Proof.
  unfold is_transfer_transaction. destruct (dest_iban t) as [d|]; [|discriminate].
  intro H. now exists d.
Qed.

Lemma complementary_transfer (t : Trsx) (dest : string) :
  dest_iban t = Some dest ->
  is_transfer_transaction accounts t = true ->
  complementary accounts t =
    Ok {| source_iban := dest;
          dest_iban := Some (source_iban t);
          type := type t;
          date := date t;
          amount := Float.mul (amount t) Float.minus_one;
          payee := payee t;
          memo := memo t;
          transaction_desc := transaction_desc t |}.
Proof. intros Hd Ht. unfold complementary. now rewrite Ht, Hd. Qed.

(** C7. On a transfer record [complementary] returns a record with the two
    accounts swapped, the amount multiplied by [-1] (its sign flipped) and
    date, type, payee, memo and description copied; on any other record it
    raises. *)
Theorem complementary_spec (t : Trsx) :
  (is_transfer_transaction accounts t = true ->
   exists c, complementary accounts t = Ok c /\ mirrored t c)
  /\ (is_transfer_transaction accounts t = false ->
      exists e, complementary accounts t = Raise e).
Proof.
  split; intro Ht.
  - destruct (is_transfer_dest t Ht) as [d [Hd _]].
    rewrite (complementary_transfer t Hd Ht). eexists. split; [reflexivity|].
    unfold mirrored; simpl. repeat split; try assumption.
    apply FloatFacts.mul_minus_one.
  - unfold complementary. rewrite Ht. simpl. eexists. reflexivity.
Qed.

Lemma Trsx_eq_refl (t : Trsx) :
  Float.is_nan (amount t) = false -> Trsx_eq t t = true.
Proof.
  intro H. unfold Trsx_eq.
  now rewrite !String.eqb_refl, !option_eqb_refl, datetime_eqb_refl,
    (FloatFacts.eqb_refl _ H).
Qed.

(** C3, amended. For a transfer record whose own account is registered too
    and whose amount is a number, the complement is a transfer, its amount
    equals the negated amount, and the complement of the complement equals
    the record. *)
Theorem complementary_involutive (t : Trsx) :
  is_transfer_transaction accounts t = true ->
  registry_mem accounts (Some (source_iban t)) = true ->
  Float.valid (amount t) = true ->
  Float.is_nan (amount t) = false ->
  exists c c2,
    complementary accounts t = Ok c
    /\ is_transfer_transaction accounts c = true
    /\ Float.eqb (amount c) (Float.opp (amount t)) = true
    /\ complementary accounts c = Ok c2
    /\ Trsx_eq c2 t = true.
Proof.
  intros Ht Hs Hv Hn.
  destruct (is_transfer_dest t Ht) as [d [Hd Hmem]].
  pose proof (complementary_transfer t Hd Ht) as Hc.
  set (c := {| source_iban := d; dest_iban := Some (source_iban t);
               type := type t; date := date t;
               amount := Float.mul (amount t) Float.minus_one;
               payee := payee t; memo := memo t;
               transaction_desc := transaction_desc t |}) in *.
  assert (Htc : is_transfer_transaction accounts c = true) by exact Hs.
  pose proof (@complementary_transfer c (source_iban t) eq_refl Htc) as Hc2.
  eexists. eexists. split; [exact Hc|]. split; [exact Htc|].
  split; [|split; [exact Hc2|]].
  - simpl. rewrite (FloatFacts.mul_minus_one _ Hv).
    apply FloatFacts.eqb_refl. now rewrite FloatFacts.is_nan_opp.
  - unfold Trsx_eq; simpl.
    rewrite (FloatFacts.mul_minus_one _ Hv).
    rewrite FloatFacts.mul_minus_one by now rewrite FloatFacts.valid_opp.
    rewrite FloatFacts.opp_involutive, Hd.
    now rewrite !String.eqb_refl, !option_eqb_refl, datetime_eqb_refl,
      (FloatFacts.eqb_refl _ Hn).
Qed.

End TrsxFacts.

Lemma complementary_spec_witness :
  (exists c, complementary two_accounts (to_savings twelve_fifty) = Ok c
             /\ mirrored (to_savings twelve_fifty) c)
  /\ (exists e, complementary two_accounts groceries = Raise e).
Proof.
  split.
  - apply (proj1 (complementary_spec two_accounts (to_savings twelve_fifty))).
    reflexivity.
  - apply (proj2 (complementary_spec two_accounts groceries)). reflexivity.
Defined.

Lemma complementary_involutive_witness :
  exists c c2,
    complementary two_accounts (to_savings twelve_fifty) = Ok c
    /\ is_transfer_transaction two_accounts c = true
    /\ Float.eqb (amount c) (Float.opp twelve_fifty) = true
    /\ complementary two_accounts c = Ok c2
    /\ Trsx_eq c2 (to_savings twelve_fifty) = true.
Proof.
  apply (complementary_involutive two_accounts (to_savings twelve_fifty));
    reflexivity.
Defined.

(** C3 as stated fails. With only the destination registered the complement
    of a transfer is no transfer and has no complement; and with a NaN amount
    the complement's amount differs from the negated amount and the double
    complement differs from the record. *)
Lemma complementary_not_involutive :
  (is_transfer_transaction savings_only (to_savings twelve_fifty) = true
   /\ option_map (is_transfer_transaction savings_only)
        (match complementary savings_only (to_savings twelve_fifty) with
         | Ok c => Some c | Raise _ => None end) = Some false
   /\ match complementary savings_only (to_savings twelve_fifty) with
      | Ok c => is_ok (complementary savings_only c)
      | Raise _ => true
      end = false)
  /\ (is_transfer_transaction two_accounts (to_savings S754_nan) = true
      /\ match complementary two_accounts (to_savings S754_nan) with
         | Ok c =>
             match complementary two_accounts c with
             | Ok c2 =>
                 Some (Float.eqb (amount c) (Float.opp S754_nan),
                       Trsx_eq c2 (to_savings S754_nan))
             | Raise _ => None
             end
         | Raise _ => None
         end = Some (false, false)).
Proof. vm_compute. repeat split. Qed.

(** ** The matcher *)

Section MatcherFacts.

Variable R : Type.

(** A match goes forward: the continuation is entered at a position no
    smaller than the one the expression was started at. *)
Lemma star_forward (p : ascii -> bool) (s : string) :
  forall (i : nat) (caps : captures) (k : cont R) (x : R),
    star p s i caps k = Some x ->
    exists s' i', i <= i' /\ k s' i' caps = Some x.
Proof.
  induction s as [|c rest IH]; intros i caps k x H; simpl in H.
  - now exists EmptyString, i.
  - destruct (p c).
    + destruct (star p rest (S i) caps k) as [y|] eqn:E.
      * injection H as <-. destruct (IH _ _ _ _ E) as (s' & i' & Hle & Hk).
        exists s', i'. split; [lia | assumption].
      * now exists (String c rest), i.
    + now exists (String c rest), i.
Qed.

Lemma match_here_forward (r : regex) :
  forall (s : string) (i : nat) (caps : captures) (k : cont R) (x : R),
    match_here r s i caps k = Some x ->
    exists s' i' caps', i <= i' /\ k s' i' caps' = Some x.
Proof.
  induction r as [|c|p|r1 IH1 r2 IH2|r1 IH1 r2 IH2|p|name r1 IH1];
    intros s i caps k x H; simpl in H.
  - now exists s, i, caps.
  - destruct s as [|a rest]; [discriminate|].
    destruct (Ascii.eqb a c); [|discriminate].
    exists rest, (S i), caps. split; [lia | assumption].
  - destruct s as [|a rest]; [discriminate|].
    destruct (p a); [|discriminate].
    exists rest, (S i), caps. split; [lia | assumption].
  - destruct (IH1 _ _ _ _ _ H) as (s1 & i1 & caps1 & Hle1 & H1).
    destruct (IH2 _ _ _ _ _ H1) as (s2 & i2 & caps2 & Hle2 & H2).
    exists s2, i2, caps2. split; [lia | assumption].
  - destruct (match_here r1 s i caps k) as [y|] eqn:E.
    + injection H as <-. now apply IH1 in E.
    + now apply IH2 in H.
  - destruct s as [|a rest]; [discriminate|].
    destruct (p a); [|discriminate].
    destruct (star_forward _ _ _ _ _ H) as (s' & i' & Hle & Hk).
    exists s', i', caps. split; [lia | assumption].
  - destruct (IH1 _ _ _ _ _ H) as (s1 & i1 & caps1 & Hle1 & H1).
    exists s1, i1, ((name, (i, i1)) :: caps1). split; assumption.
Qed.

End MatcherFacts.

(** An expression that begins with a literal character matches no empty
    text. *)
Lemma match_at_nonempty (c : ascii) (r : regex) (subject s : string) (i : nat)
  (m : Match) :
  match_at (Seq (Chr c) r) subject s i = Some m -> m_start m = i /\ i < m_end m.
Proof.
  unfold match_at. cbn [match_here].
  destruct s as [|a rest]; [discriminate|].
  destruct (Ascii.eqb a c); [|discriminate].
  intro H. apply match_here_forward in H as (s' & i' & caps' & Hle & Hk).
  injection Hk as <-. simpl. lia.
Qed.

Lemma marker_nonempty (subject s : string) (i : nat) (m : Match) :
  match_at SEPA_markers_re subject s i = Some m -> m_start m = i /\ i < m_end m.
Proof. apply match_at_nonempty. Qed.

Lemma finditer_markers_end (subject s : string) :
  forall i skip,
    Forall (fun m => 0 < m_end m) (finditer_from SEPA_markers_re subject s i skip).
Proof.
  induction s as [|c rest IH]; intros i skip; simpl; [constructor|].
  destruct skip as [|n]; [|apply IH].
  destruct (match_at SEPA_markers_re subject (String c rest) i) as [m|] eqn:E;
    [|apply IH].
  constructor; [|apply IH].
  apply marker_nonempty in E. lia.
Qed.

(** ** Field extraction *)

Lemma find_sepa_loop_skip (info field : string) (pre rest : list Match) :
  Forall (fun m => String.eqb (tag m) field = false) pre ->
  find_sepa_loop info field (pre ++ rest) None
  = find_sepa_loop info field rest None.
Proof.
  induction 1 as [|m pre Hm _ IH]; simpl; [reflexivity|].
  unfold tag in Hm. now rewrite Hm.
Qed.

Lemma find_sepa_loop_run (info field : string) (run rest : list Match) :
  Forall (fun m => String.eqb (tag m) field = true) run ->
  forall start,
    find_sepa_loop info field (run ++ rest) start
    = find_sepa_loop info field rest
        (match rev run with [] => start | m :: _ => Some (m_end m) end).
Proof.
  induction 1 as [|m run Hm _ IH]; intro start; simpl; [reflexivity|].
  unfold tag in Hm. rewrite Hm, IH.
  destruct (rev run) as [|m' l] eqn:E; simpl; [reflexivity|].
  reflexivity.
Qed.

(** The rule of the scan: the value returned is the text between the last
    marker of the first run of markers of the field and the marker that ends
    that run. *)
Lemma find_sepa_loop_value (info field : string)
  (pre run : list Match) (last_ other : Match) (rest : list Match) :
  Forall (fun m => String.eqb (tag m) field = false) pre ->
  Forall (fun m => String.eqb (tag m) field = true) run ->
  String.eqb (tag last_) field = true ->
  String.eqb (tag other) field = false ->
  0 < m_end last_ ->
  find_sepa_loop info field (pre ++ run ++ last_ :: other :: rest) None
  = Some (slice info (m_end last_) (m_start other)).
Proof.
  intros Hpre Hrun Hlast Hother Hend.
  rewrite find_sepa_loop_skip by exact Hpre.
  rewrite find_sepa_loop_run by exact Hrun.
  simpl. unfold tag in Hlast, Hother. rewrite Hlast. simpl. rewrite Hother.
  destruct (m_end last_); [lia | reflexivity].
Qed.

(** A field whose markers are the last ones of the narrative is lost. *)
Lemma find_sepa_loop_trailing (info field : string) (pre run : list Match) :
  Forall (fun m => String.eqb (tag m) field = false) pre ->
  Forall (fun m => String.eqb (tag m) field = true) run ->
  find_sepa_loop info field (pre ++ run) None = None.
Proof.
  intros Hpre Hrun.
  rewrite find_sepa_loop_skip by exact Hpre.
  rewrite <- (app_nil_r run). rewrite find_sepa_loop_run by exact Hrun.
  reflexivity.
Qed.

Lemma find_sepa_field_gate (info field : string) :
  search SEPA_re info = None -> find_sepa_field info field = None.
Proof. unfold find_sepa_field. now intros ->. Qed.

Lemma find_sepa_field_trailing (info field : string) (pre run : list Match) :
  finditer SEPA_markers_re info = (pre ++ run)%list ->
  Forall (fun m => String.eqb (tag m) field = false) pre ->
  Forall (fun m => String.eqb (tag m) field = true) run ->
  find_sepa_field info field = None.
Proof.
  intros Hm Hpre Hrun. unfold find_sepa_field.
  destruct (search SEPA_re info); [|reflexivity].
  rewrite Hm. now apply find_sepa_loop_trailing.
Qed.

(** C10, amended. In a narrative that passes the /TRTP/ test, a field whose
    marker is repeated gets the text after the last marker of the first run
    of its markers, up to the marker of another field that ends the run. *)
Theorem find_sepa_field_repeated :
  (forall (info field : string) (trtp : Match)
          (pre run : list Match) (last_ other : Match) (rest : list Match),
      search SEPA_re info = Some trtp ->
      finditer SEPA_markers_re info
        = (pre ++ run ++ last_ :: other :: rest)%list ->
      Forall (fun m => String.eqb (tag m) field = false) pre ->
      Forall (fun m => String.eqb (tag m) field = true) run ->
      String.eqb (tag last_) field = true ->
      String.eqb (tag other) field = false ->
      find_sepa_field info field
        = Some (slice info (m_end last_) (m_start other)))
  /\ find_sepa_field "/TRTP/SEPA/REMI/a/REMI/b/IBAN/x" "REMI" = Some "b"
  /\ find_sepa_field "/TRTP/SEPA/REMI/a/IBAN/x/REMI/b/EREF/y" "REMI" = Some "a".
Proof.
  split; [|split; reflexivity].
  intros info field trtp pre run last_ other rest Hs Hm Hpre Hrun Hlast Hother.
  unfold find_sepa_field. rewrite Hs, Hm.
  apply find_sepa_loop_value; try assumption.
  pose proof (finditer_markers_end info info 0 0) as Hall.
  unfold finditer in Hm. rewrite Hm in Hall.
  apply Forall_app in Hall as [_ Hall]. apply Forall_app in Hall as [_ Hall].
  now inversion Hall.
Qed.

Lemma find_sepa_field_repeated_witness :
  find_sepa_field "/TRTP/SEPA/REMI/a/REMI/b/IBAN/x" "REMI"
  = Some (slice "/TRTP/SEPA/REMI/a/REMI/b/IBAN/x" 23 24).
Proof.
  pose (info := "/TRTP/SEPA/REMI/a/REMI/b/IBAN/x").
  pose (marker := fun a b =>
          {| m_string := info; m_start := a; m_end := b;
             m_groups := [("1", (S a, b - 1))] |}).
  apply (proj1 find_sepa_field_repeated info "REMI"
           {| m_string := info; m_start := 0; m_end := 31; m_groups := [] |}
           [marker 0 6] [marker 10 16] (marker 17 23) (marker 24 30) []).
  - reflexivity.
  - reflexivity.
  - repeat constructor.
  - repeat constructor.
  - reflexivity.
  - reflexivity.
Defined.

(** C10 as stated fails on its own narratives: without /TRTP/ nothing is
    extracted. *)
Lemma find_sepa_field_needs_trtp :
  find_sepa_field "/REMI/a/REMI/b/IBAN/x" "REMI" = None
  /\ find_sepa_field "/REMI/a/IBAN/x/REMI/b/EREF/y" "REMI" = None.
Proof. split; reflexivity. Qed.

(** C4. The field whose marker is the last one of the narrative is not
    returned, although its marker occurs; the fields before it are. *)
Theorem find_sepa_field_last_marker :
  let info :=
    "/TRTP/SEPA OVERBOEKING/IBAN/NL02ABNA0000000002/NAME/J SMITH/REMI/INVOICE 42" in
  map tag (finditer SEPA_markers_re info) = ["TRTP"; "IBAN"; "NAME"; "REMI"]
  /\ find_sepa_field info "REMI" = None
  /\ find_sepa_field info "NAME" = Some "J SMITH"
  /\ find_sepa_field info "IBAN" = Some "NL02ABNA0000000002".
Proof. vm_compute. repeat split. Qed.

(** ** Classification *)

Section ProcessEntryFacts.

Variable float : string -> result Float.t.
Variable strptime : string -> result datetime.

Lemma _get_regex_none (info : string) :
  search BEA_re info = None -> search SEPA_re info = None ->
  search ABN_re info = None -> search SPAREN_re info = None ->
  _get_regex info = (None, None).
Proof. intros Hb Hs Ha Hp. unfold _get_regex. simpl. now rewrite Hb, Hs, Ha, Hp. Qed.

(** The first expression of the table that matches decides. *)
Lemma _get_regex_cases (info : string) :
  (exists m, search BEA_re info = Some m
             /\ _get_regex info = (Some "bea", Some m))
  \/ (search BEA_re info = None
      /\ exists m, search SEPA_re info = Some m
                   /\ _get_regex info = (Some "sepa", Some m))
  \/ (search BEA_re info = None /\ search SEPA_re info = None
      /\ exists m, search ABN_re info = Some m
                   /\ _get_regex info = (Some "abn", Some m))
  \/ (search BEA_re info = None /\ search SEPA_re info = None
      /\ search ABN_re info = None
      /\ exists m, search SPAREN_re info = Some m
                   /\ _get_regex info = (Some "sparen", Some m))
  \/ (search BEA_re info = None /\ search SEPA_re info = None
      /\ search ABN_re info = None /\ search SPAREN_re info = None
      /\ _get_regex info = (None, None)).
Proof.
  unfold _get_regex. simpl.
  destruct (search BEA_re info) as [m|]; [left; now exists m|]. right.
  destruct (search SEPA_re info) as [m|]; [left; split; [|exists m]; easy|]. right.
  destruct (search ABN_re info) as [m|];
    [left; split; [|split; [|exists m]]; easy|]. right.
  destruct (search SPAREN_re info) as [m|];
    [left; split; [|split; [|split; [|exists m]]]; easy|]. right.
  easy.
Qed.

(** C5. An entry whose narrative none of the four expressions matches makes
    [process_entry] raise, and the loop over the entries stops with that
    exception: no record is made and the entry is not passed over. *)
Theorem process_entry_unrecognized (account_iban : string) (elem : Ntry) :
  search BEA_re (AddtlNtryInf elem) = None ->
  search SEPA_re (AddtlNtryInf elem) = None ->
  search ABN_re (AddtlNtryInf elem) = None ->
  search SPAREN_re (AddtlNtryInf elem) = None ->
  exists e,
    process_entry float strptime account_iban elem = Raise e
    /\ forall accounts hash str_float rest q,
         add_entries accounts hash str_float float strptime account_iban
           (elem :: rest) q = (Raise e, q).
Proof.
  intros Hb Hs Ha Hp.
  assert (H : exists e, process_entry float strptime account_iban elem = Raise e).
  { unfold process_entry.
    destruct (strptime (ValDt elem)); [|eexists; reflexivity].
    destruct (float (Amt elem)); [|eexists; reflexivity].
    rewrite _get_regex_none by assumption. eexists; reflexivity. }
  destruct H as [e He]. exists e. split; [exact He|].
  intros. simpl. unfold bind at 1, lift. now rewrite He.
Qed.


End ProcessEntryFacts.

Lemma process_entry_unrecognized_witness :
  exists e,
    process_entry py_float py_strptime "NL01ABNA0000000001" unknown_entry = Raise e
    /\ forall accounts hash str_float rest q,
         add_entries accounts hash str_float py_float py_strptime
           "NL01ABNA0000000001" (unknown_entry :: rest) q = (Raise e, q).
Proof.
  apply (@process_entry_unrecognized py_float py_strptime "NL01ABNA0000000001"
           unknown_entry); reflexivity.
Defined.


(** ** The dictionary of groups *)

Section DictFacts.

Variable G : string -> list string.

Lemma mem_string_app (a : string) (l1 l2 : list string) :
  mem_string a (l1 ++ l2)%list = mem_string a l1 || mem_string a l2.
Proof. apply existsb_app. Qed.

Lemma dict_get_map (S : list string) (a : string) :
  dict_get (map (fun x => (x, G x)) S) a
  = if mem_string a S then Some (G a) else None.
Proof.
  induction S as [|x S IH]; simpl; [reflexivity|].
  rewrite (String.eqb_sym a x).
  destruct (String.eqb x a) eqn:E; simpl.
  - apply String.eqb_eq in E. now subst.
  - exact IH.
Qed.

Lemma dict_mem_map (S : list string) (a : string) :
  dict_mem (map (fun x => (x, G x)) S) a = mem_string a S.
Proof. unfold dict_mem. rewrite dict_get_map. now destruct (mem_string a S). Qed.

Lemma dict_set_new (d : groups) (a : string) (v : list string) :
  dict_mem d a = false -> dict_set d a v = (d ++ [(a, v)])%list.
Proof.
  unfold dict_mem. induction d as [|[k w] d IH]; simpl; [reflexivity|].
  destruct (String.eqb k a); [discriminate|].
  intro H. now rewrite IH.
Qed.

Lemma dict_append_last (d : groups) (a x : string) (v : list string) :
  dict_mem d a = false ->
  dict_append (d ++ [(a, v)])%list a x = (d ++ [(a, (v ++ [x])%list)])%list.
Proof.
  unfold dict_mem. induction d as [|[k w] d IH]; simpl.
  - now rewrite String.eqb_refl.
  - destruct (String.eqb k a); [discriminate|].
    intro H. now rewrite IH.
Qed.

(** Appending to the group of [a] changes that group only. *)
Lemma dict_append_map (G' : string -> list string) (S : list string)
  (a x : string) :
  NoDup S -> mem_string a S = true ->
  G' a = (G a ++ [x])%list ->
  (forall b, String.eqb b a = false -> G' b = G b) ->
  dict_append (map (fun b => (b, G b)) S) a x = map (fun b => (b, G' b)) S.
Proof.
  intros Hnd Hin Ha Hother.
  induction S as [|b S IH]; simpl in *; [discriminate|].
  inversion Hnd as [|? ? Hnotin Hnd']; subst.
  rewrite (String.eqb_sym a b) in Hin.
  destruct (String.eqb b a) eqn:E.
  - apply String.eqb_eq in E. subst b. rewrite Ha. f_equal.
    apply map_ext_in. intros c Hc. rewrite Hother; [reflexivity|].
    apply String.eqb_neq. intros ->. contradiction.
  - rewrite (Hother _ E). f_equal. now apply IH.
Qed.

End DictFacts.

Lemma mem_string_In (a : string) (l : list string) :
  mem_string a l = true <-> In a l.
Proof.
  unfold mem_string. rewrite existsb_exists. split.
  - intros (x & Hx & E). apply String.eqb_eq in E. now subst.
  - intro H. exists a. split; [assumption | apply String.eqb_refl].
Qed.

(** ** The groups of a list of records *)

Section GroupingFacts.

Variable accounts : registry.
Variable str_float : Float.t -> string.

Lemma first_seen_snoc (l : list Trsx) (t : Trsx) :
  first_seen (l ++ [t])%list
  = if mem_string (source_iban t) (first_seen l) then first_seen l
    else (first_seen l ++ [source_iban t])%list.
Proof. unfold first_seen. now rewrite fold_left_app. Qed.

Lemma first_seen_NoDup (l : list Trsx) : NoDup (first_seen l).
Proof.
  induction l as [|t l IH] using rev_ind; [constructor|].
  rewrite first_seen_snoc.
  destruct (mem_string (source_iban t) (first_seen l)) eqn:E; [assumption|].
  apply NoDup_app; [assumption | repeat constructor; intros [] |].
  intros a Ha [<-|[]]. apply mem_string_In in Ha. congruence.
Qed.

(** An account is among those seen exactly when a record has it. *)
Lemma first_seen_mem (l : list Trsx) (a : string) :
  mem_string a (first_seen l)
  = existsb (fun t => String.eqb (source_iban t) a) l.
Proof.
  induction l as [|t l IH] using rev_ind; [reflexivity|].
  rewrite first_seen_snoc, existsb_app. simpl. rewrite orb_false_r, <- IH.
  destruct (mem_string (source_iban t) (first_seen l)) eqn:E.
  - destruct (String.eqb (source_iban t) a) eqn:Ea.
    + apply String.eqb_eq in Ea. subst a. rewrite E. reflexivity.
    + now rewrite orb_false_r.
  - rewrite mem_string_app. simpl. rewrite orb_false_r.
    now rewrite (String.eqb_sym a).
Qed.

Lemma blocks_of_snoc (a : string) (l : list Trsx) (t : Trsx) :
  blocks_of accounts str_float a (l ++ [t])%list
  = (blocks_of accounts str_float a l
     ++ (if String.eqb (source_iban t) a
         then [block_of accounts str_float t] else []))%list.
Proof.
  unfold blocks_of. rewrite filter_app, map_app. simpl.
  now destruct (String.eqb (source_iban t) a).
Qed.

Lemma get_qif_tx_ok (t : Trsx) :
  get_qif_tx accounts str_float t = Ok (block_of accounts str_float t).
Proof.
  unfold block_of, get_qif_tx, is_transfer_transaction, registry_mem, _get_account.
  destruct (dest_iban t) as [d|]; [|reflexivity].
  destruct (registry_get accounts d); reflexivity.
Qed.

(** The groups after one more accepted record of a known account. *)
Lemma grouped_snoc_known (l : list Trsx) (t : Trsx) :
  mem_string (source_iban t) (first_seen l) = true ->
  grouped accounts str_float (l ++ [t])%list
  = dict_append (grouped accounts str_float l) (source_iban t)
      (block_of accounts str_float t).
Proof.
  intro Hin. unfold grouped. rewrite first_seen_snoc, Hin. symmetry.
  apply (dict_append_map
           (fun b => header_of accounts b :: blocks_of accounts str_float b l)
           (fun b => header_of accounts b
                     :: blocks_of accounts str_float b (l ++ [t])%list));
    [apply first_seen_NoDup | exact Hin | |].
  - rewrite blocks_of_snoc, String.eqb_refl. reflexivity.
  - intros b Hb. rewrite blocks_of_snoc, (String.eqb_sym (source_iban t) b), Hb.
    now rewrite app_nil_r.
Qed.

(** The groups after the first accepted record of an account. *)
Lemma grouped_snoc_new (l : list Trsx) (t : Trsx) :
  mem_string (source_iban t) (first_seen l) = false ->
  grouped accounts str_float (l ++ [t])%list
  = (grouped accounts str_float l
     ++ [(source_iban t,
          [header_of accounts (source_iban t); block_of accounts str_float t])])%list.
Proof.
  intro Hnew. unfold grouped. rewrite first_seen_snoc, Hnew, map_app. simpl.
  f_equal.
  - apply map_ext_in. intros b Hb. rewrite blocks_of_snoc.
    destruct (String.eqb (source_iban t) b) eqn:E; [|now rewrite app_nil_r].
    apply String.eqb_eq in E. subst b. apply mem_string_In in Hb. congruence.
  - rewrite blocks_of_snoc, String.eqb_refl. f_equal. f_equal. f_equal.
    unfold blocks_of.
    rewrite first_seen_mem in Hnew.
    induction l as [|x l IH]; [reflexivity|]. simpl in *.
    destruct (String.eqb (source_iban x) (source_iban t)); [discriminate|].
    now apply IH.
Qed.

End GroupingFacts.

Lemma dict_get_set (d : groups) (k : string) (v : list string) :
  dict_get (dict_set d k v) k = Some v.
Proof.
  induction d as [|[k' w] d IH]; simpl.
  - now rewrite String.eqb_refl.
  - destruct (String.eqb k' k) eqn:E; simpl; rewrite E; [reflexivity | exact IH].
Qed.

Lemma dict_get_append (d : groups) (k k' x : string) :
  dict_get (dict_append d k x) k'
  = if String.eqb k k'
    then option_map (fun v => (v ++ [x])%list) (dict_get d k')
    else dict_get d k'.
Proof.
  induction d as [|[a w] d IH]; simpl; [now destruct (String.eqb k k')|].
  destruct (String.eqb a k) eqn:Ea; simpl.
  - apply String.eqb_eq in Ea. subst a.
    destruct (String.eqb k k'); reflexivity.
  - destruct (String.eqb a k') eqn:Ea'; [|exact IH].
    apply String.eqb_eq in Ea'. subst a. now rewrite String.eqb_sym, Ea.
Qed.

Lemma dict_get_set_other (d : groups) (k k' : string) (v : list string) :
  String.eqb k k' = false -> dict_get (dict_set d k v) k' = dict_get d k'.
Proof.
  intro Hk. induction d as [|[a w] d IH]; simpl; [now rewrite Hk|].
  destruct (String.eqb a k) eqn:Ea; simpl.
  - apply String.eqb_eq in Ea. subst a. now rewrite Hk.
  - destruct (String.eqb a k'); [reflexivity | exact IH].
Qed.

(** ** The aggregator *)

Section AggregatorFacts.

Variable accounts : registry.
Variable hash : string -> Z.
Variable str_float : Float.t -> string.

Local Abbreviation iadd := (__iadd__ accounts hash str_float).
Local Abbreviation contains := (set_contains hash str_float).
Local Abbreviation tl := QIFOutput._transaction_list.

(** What [__iadd__] does, case by case. *)
Lemma iadd_cases (t : Trsx) (q : QIFOutput.t) :
  iadd t q =
    if contains (tl q) t then (Ok tt, incr_skipped q)
    else if dict_mem (QIFOutput.accounts q) (source_iban t) then
      (Ok tt,
       accepted_state hash str_float q t
         (dict_append (QIFOutput.accounts q) (source_iban t)
            (block_of accounts str_float t)))
    else
      match registry_get accounts (source_iban t) with
      | Some name =>
          (Ok tt,
           accepted_state hash str_float q t
             (dict_append
                (dict_append (dict_set (QIFOutput.accounts q) (source_iban t) [])
                   (source_iban t) (qif_account_tpl name "Bank"))
                (source_iban t) (block_of accounts str_float t)))
      | None =>
          (Raise (KeyError (source_iban t)),
           set_accounts (fun d => dict_set d (source_iban t) []) q)
      end.
Proof.
  unfold __iadd__, bind at 1, get.
  destruct (contains (tl q) t); [reflexivity|]. cbn [negb].
  unfold _get_list, bind, get, lift, modify, ret, _get_account.
  rewrite get_qif_tx_ok.
  destruct (dict_mem (QIFOutput.accounts q) (source_iban t)); [reflexivity|].
  cbn [negb]. destruct (registry_get accounts (source_iban t)); reflexivity.
Qed.

Lemma set_contains_add (s : list Trsx) (t : Trsx) :
  contains s t = false -> set_add hash str_float s t = (s ++ [t])%list.
Proof. unfold set_add. now intros ->. Qed.


Lemma fingerprint_same_fields (t1 t2 : Trsx) :
  same_fields t1 t2 -> fingerprint str_float t1 = fingerprint str_float t2.
Proof.
  intros (Hs & Hd & Hty & Hda & Ha & Hp & Hm). unfold fingerprint.
  now rewrite Hs, Hd, Hda, Ha, Hm.
Qed.



(** A record that is found has the account of a record of the set. *)
Lemma set_contains_source (s : list Trsx) (t : Trsx) :
  contains s t = true ->
  existsb (fun e => String.eqb (source_iban e) (source_iban t)) s = true.
Proof.
  unfold set_contains. rewrite !existsb_exists.
  intros (e & He & H). exists e. split; [assumption|].
  apply andb_prop in H as [_ H]. unfold Trsx_eq in H.
  repeat (apply andb_prop in H as [H _]). exact H.
Qed.


(** A record equal to none of the set is not found, whatever the hashes. *)
Lemma set_contains_unequal (s : list Trsx) (t : Trsx) :
  Forall (fun e => Trsx_eq e t = false) s -> contains s t = false.
Proof.
  induction 1 as [|e s He _ IH]; simpl; [reflexivity|].
  now rewrite He, andb_false_r.
Qed.

Lemma Trsx_eq_nan (e t : Trsx) :
  Float.is_nan (amount t) = true -> Trsx_eq e t = false.
Proof.
  intro H. unfold Trsx_eq.
  assert (Hf : Float.eqb (amount e) (amount t) = false).
  { destruct (amount t); try discriminate H. now destruct (amount e). }
  rewrite Hf. now rewrite andb_false_r.
Qed.

(** A record whose amount is NaN is never found. *)
Lemma set_contains_nan (s : list Trsx) (t : Trsx) :
  Float.is_nan (amount t) = true -> contains s t = false.
Proof.
  intro H. apply set_contains_unequal.
  apply Forall_forall. intros e _. now apply Trsx_eq_nan.
Qed.

(** An addition that is not a duplicate and returns puts the record last in
    the set and counts it as added. *)
Lemma iadd_new (t : Trsx) (q q' : QIFOutput.t) :
  contains (tl q) t = false ->
  iadd t q = (Ok tt, q') ->
  tl q' = (tl q ++ [t])%list
  /\ QIFOutput.added q' = S (QIFOutput.added q)
  /\ QIFOutput.skipped q' = QIFOutput.skipped q.
Proof.
  intro Hc. rewrite iadd_cases, Hc.
  destruct (dict_mem (QIFOutput.accounts q) (source_iban t)).
  - intro H. injection H as <-. simpl. now rewrite set_contains_add.
  - destruct (registry_get accounts (source_iban t)); [|discriminate].
    intro H. injection H as <-. simpl. now rewrite set_contains_add.
Qed.





End AggregatorFacts.





(** ** Runs of additions *)

Section RunFacts.

Variable accounts : registry.
Variable hash : string -> Z.
Variable str_float : Float.t -> string.
Variable float : string -> result Float.t.
Variable strptime : string -> result datetime.

Local Abbreviation iadd := (__iadd__ accounts hash str_float).
Local Abbreviation contains := (set_contains hash str_float).
Local Abbreviation tl := QIFOutput._transaction_list.
Local Abbreviation ok := (consistent accounts str_float).
Local Abbreviation weak := (printable accounts str_float).

Lemma triple_ret (A : Type) (P E : QIFOutput.t -> Prop) (a : A) :
  triple P (ret a) (fun _ => P) E.
Proof. intros q H. exact H. Qed.


Lemma triple_bind (A B : Type) (P E : QIFOutput.t -> Prop)
  (Q : A -> QIFOutput.t -> Prop) (Q' : B -> QIFOutput.t -> Prop)
  (m : M A) (f : A -> M B) :
  triple P m Q E -> (forall a, triple (Q a) (f a) Q' E) ->
  triple P (bind m f) Q' E.
Proof.
  intros Hm Hf q H. unfold bind. specialize (Hm q H).
  destruct (m q) as [[a|e] q']; [now apply Hf | exact Hm].
Qed.


(** An addition keeps the groups those of the accepted records; when it
    raises, only an empty group was added. *)
Lemma iadd_consistent (t : Trsx) : triple ok (iadd t) (fun _ => ok) weak.
Proof.
  intros q (Ha & Hn & Ho). rewrite iadd_cases.
  destruct (contains (tl q) t) eqn:Ec; [now repeat split|].
  assert (Hmem : dict_mem (QIFOutput.accounts q) (source_iban t)
                 = mem_string (source_iban t) (first_seen (tl q))).
  { rewrite Ha. unfold grouped. apply dict_mem_map. }
  rewrite Hmem.
  destruct (mem_string (source_iban t) (first_seen (tl q))) eqn:Es.
  - unfold consistent, accepted_state; simpl.
    rewrite set_contains_add by exact Ec.
    rewrite Ha, grouped_snoc_known by exact Es.
    rewrite length_app, Hn. simpl. repeat split; [lia | exact Ho].
  - destruct (registry_get accounts (source_iban t)) as [name|] eqn:Er.
    + unfold consistent, accepted_state; simpl.
      rewrite set_contains_add by exact Ec.
      rewrite dict_set_new by exact Hmem.
      rewrite dict_append_last by exact Hmem.
      rewrite dict_append_last by exact Hmem.
      rewrite grouped_snoc_new by exact Es.
      unfold header_of. rewrite Er, Ha, length_app, Hn. simpl.
      repeat split; [lia | exact Ho].
    + unfold printable; simpl. rewrite dict_set_new by exact Hmem.
      rewrite map_app, concat_app, Ha. simpl. rewrite app_nil_r.
      now repeat split.
Qed.

Lemma add_all_consistent (ts : list Trsx) :
  triple ok (add_all accounts hash str_float ts) (fun _ => ok) weak.
Proof.
  induction ts as [|t ts IH]; simpl; [apply triple_ret|].
  eapply triple_bind; [apply iadd_consistent | intro; exact IH].
Qed.



Lemma init_consistent : ok (__enter__ __init__).
Proof. now repeat split. Qed.

(** The set and the counters after an addition that returned. *)
Lemma iadd_accepted (t : Trsx) (q q1 : QIFOutput.t) :
  iadd t q = (Ok tt, q1) ->
  tl q1 = set_add hash str_float (tl q) t
  /\ QIFOutput.added q1 + QIFOutput.skipped q1
     = S (QIFOutput.added q + QIFOutput.skipped q).
Proof.
  rewrite iadd_cases. unfold set_add.
  destruct (contains (tl q) t) eqn:Ec.
  - intro E. injection E as <-. simpl. split; [reflexivity | lia].
  - destruct (dict_mem (QIFOutput.accounts q) (source_iban t)).
    + intro E. injection E as <-. simpl. unfold set_add. rewrite Ec.
      split; [reflexivity | lia].
    + destruct (registry_get accounts (source_iban t)); [|discriminate].
      intro E. injection E as <-. simpl. unfold set_add. rewrite Ec.
      split; [reflexivity | lia].
Qed.

Lemma add_all_accepted (ts : list Trsx) :
  forall q q',
    add_all accounts hash str_float ts q = (Ok tt, q') ->
    tl q' = fold_left (set_add hash str_float) ts (tl q)
    /\ QIFOutput.added q' + QIFOutput.skipped q'
       = QIFOutput.added q + QIFOutput.skipped q + List.length ts.
Proof.
  induction ts as [|t ts IH]; intros q q' H; simpl in H.
  - injection H as <-. simpl. split; [reflexivity | lia].
  - unfold bind in H. destruct (iadd t q) as [[[]|e] q1] eqn:E; [|discriminate].
    destruct (IH _ _ H) as [Htl Hn]. destruct (iadd_accepted t q E) as [Hs Hc].
    rewrite Htl, Hn, Hs. simpl. split; [reflexivity | lia].
Qed.

(** Skipped records bring no new account. *)
Lemma first_seen_accepted (ts : list Trsx) :
  forall s,
    first_seen (fold_left (set_add hash str_float) ts s)
    = fold_left
        (fun seen t =>
           if mem_string (source_iban t) seen then seen
           else (seen ++ [source_iban t])%list)
        ts (first_seen s).
Proof.
  induction ts as [|t ts IH]; intro s; simpl; [reflexivity|].
  rewrite IH. f_equal. unfold set_add.
  destruct (contains s t) eqn:E; [|apply first_seen_snoc].
  apply set_contains_source in E. now rewrite first_seen_mem, E.
Qed.

Lemma dict_append_count (d : groups) (a x : string) :
  dict_mem d a = true ->
  List.length (List.concat (map snd (dict_append d a x)))
  = S (List.length (List.concat (map snd d))).
Proof.
  unfold dict_mem. induction d as [|[k v] d IH]; simpl; [discriminate|].
  destruct (String.eqb k a); simpl; intro H.
  - rewrite !length_app. simpl. lia.
  - rewrite !length_app, IH by exact H. lia.
Qed.

(** A header for each account and a block for each record. *)
Lemma grouped_count (l : list Trsx) :
  List.length (List.concat (map snd (grouped accounts str_float l)))
  = List.length l + List.length (first_seen l).
Proof.
  induction l as [|t l IH] using rev_ind; [reflexivity|].
  rewrite first_seen_snoc.
  destruct (mem_string (source_iban t) (first_seen l)) eqn:E.
  - rewrite grouped_snoc_known by exact E.
    rewrite dict_append_count, IH, length_app; [simpl; lia|].
    unfold grouped. now rewrite dict_mem_map.
  - rewrite grouped_snoc_new by exact E.
    rewrite map_app, concat_app, !length_app, IH. simpl. lia.
Qed.

(** C9, amended. After additions that all returned, starting from a new
    aggregator,
    the groups are: one per account of an accepted record, in the order in
    which the accounts first came, each made of the header of the account
    and then the blocks of the accepted records of that account in the
    order of their addition. No account has two groups, the blocks are as
    many as the accepted records, and [__exit__] prints the groups in that
    order. *)
Theorem add_all_grouped (ts : list Trsx) (q : QIFOutput.t) :
  add_all accounts hash str_float ts __init__ = (Ok tt, q) ->
  tl q = accepted_of hash str_float ts
  /\ QIFOutput.accounts q
     = map (fun a => (a, header_of accounts a
                         :: blocks_of accounts str_float a (tl q)))
         (first_seen (tl q))
  /\ first_seen (tl q) = first_seen ts
  /\ NoDup (map fst (QIFOutput.accounts q))
  /\ List.length (List.concat (map snd (QIFOutput.accounts q)))
     = List.length (tl q) + List.length (QIFOutput.accounts q)
  /\ QIFOutput.output_file (__exit__ q)
     = List.concat
         (map (fun a => header_of accounts a
                        :: blocks_of accounts str_float a (tl q))
            (first_seen (tl q))).
Proof.
  intro H.
  pose proof (add_all_consistent ts) as Hc. unfold triple in Hc.
  assert (Hi : ok __init__) by now repeat split.
  specialize (Hc _ Hi). rewrite H in Hc. destruct Hc as (Ha & Hn & Ho).
  destruct (add_all_accepted ts _ H) as [Htl _]. simpl in Htl.
  split; [exact Htl|]. split; [exact Ha|]. split.
  { rewrite Htl. apply (first_seen_accepted ts []). }
  split.
  { rewrite Ha. unfold grouped. rewrite map_map. simpl. rewrite map_id.
    apply first_seen_NoDup. }
  split.
  { rewrite Ha at 1. rewrite grouped_count. f_equal.
    rewrite Ha. unfold grouped. now rewrite length_map. }
  unfold __exit__, print_to_file. simpl. rewrite Ho, Ha. simpl.
  unfold grouped. now rewrite map_map.
Qed.




End RunFacts.

Lemma add_all_grouped_witness :
  let ts := [to_savings twelve_fifty; groceries;
             with_desc "the same transfer in the other statement"
               (to_savings twelve_fifty)] in
  let q := after_adding ts in
  QIFOutput._transaction_list q = [to_savings twelve_fifty; groceries]
  /\ QIFOutput.skipped q = 1
  /\ QIFOutput.accounts q
     = [("NL01ABNA0000000001",
         [header_of two_accounts "NL01ABNA0000000001";
          block_of two_accounts py_str_float (to_savings twelve_fifty);
          block_of two_accounts py_str_float groceries])]
  /\ QIFOutput.output_file (__exit__ q)
     = [header_of two_accounts "NL01ABNA0000000001";
        block_of two_accounts py_str_float (to_savings twelve_fifty);
        block_of two_accounts py_str_float groceries].
Proof.
  intros ts q.
  destruct (@add_all_grouped two_accounts py_hash py_str_float ts q eq_refl)
    as (Hset & Hgroups & _ & _ & _ & Hfile).
  split; [exact Hset|]. split; [reflexivity|].
  split; [exact Hgroups | exact Hfile].
Defined.

(** C9 as stated fails: an addition that raises for an account that is not
    registered leaves an empty group behind, and the next addition for that
    account puts its block in a group without header, which [__exit__]
    prints as it is. *)
Lemma raised_add_leaves_headerless_group :
  let t := to_savings twelve_fifty in
  let q1 := snd (__iadd__ savings_only py_hash py_str_float t __init__) in
  let q2 := snd (__iadd__ savings_only py_hash py_str_float t q1) in
  fst (__iadd__ savings_only py_hash py_str_float t __init__)
  = Raise (KeyError "NL01ABNA0000000001")
  /\ QIFOutput.accounts q1 = [("NL01ABNA0000000001", [])]
  /\ fst (__iadd__ savings_only py_hash py_str_float t q1) = Ok tt
  /\ QIFOutput._transaction_list q2 = [t]
  /\ QIFOutput.accounts q2
     = [("NL01ABNA0000000001", [block_of savings_only py_str_float t])]
  /\ QIFOutput.output_file (__exit__ q2)
     = [block_of savings_only py_str_float t].
Proof. vm_compute. repeat split. Qed.



(** * Further properties of the program *)

(** ** Rendering *)

Section RenderFacts.

Variable accounts : registry.
Variable str_float : Float.t -> string.

(** X1. [get_qif_tx] never raises: the registry is read for the counter
    account only after [is_transfer_transaction] found it there. The ledger
    line is empty for a record that is no transfer and holds the registered
    name in brackets for a transfer, whose memo is the word Transfer when the
    record has none. *)
Theorem get_qif_tx_total (t : Trsx) :
  get_qif_tx accounts str_float t
  = Ok (qif_tpl_plain_tsx (type t) (strftime_Y_m_d (date t))
          (str_float (amount t)) (nn (payee t))
          (match memo t with
           | Some m => m
           | None => if is_transfer_transaction accounts t then "Transfer" else ""
           end)
          (match dest_iban t with
           | Some dest =>
               match registry_get accounts dest with
               | Some name => "[" ++ name ++ "]"
               | None => ""
               end
           | None => ""
           end)).
Proof.
  unfold get_qif_tx, is_transfer_transaction, registry_mem, _get_account.
  destruct (dest_iban t) as [d|]; [|now destruct (memo t)].
  destruct (registry_get accounts d); now destruct (memo t).
Qed.

End RenderFacts.

(** ** Classification, continued *)

Section ClassifyFacts.

Variable float : string -> result Float.t.
Variable strptime : string -> result datetime.

(** X2. [process_entry] returns a record exactly when the date is read, the
    amount is read and one of the four expressions matches the narrative;
    in every other case it raises. *)
Theorem process_entry_ok_iff (account_iban : string) (elem : Ntry) :
  is_ok (process_entry float strptime account_iban elem)
  = is_ok (strptime (ValDt elem)) && is_ok (float (Amt elem))
    && (matched BEA_re (AddtlNtryInf elem) || matched SEPA_re (AddtlNtryInf elem)
        || matched ABN_re (AddtlNtryInf elem)
        || matched SPAREN_re (AddtlNtryInf elem)).
Proof.
  unfold process_entry, matched.
  destruct (strptime (ValDt elem)); [|reflexivity].
  destruct (float (Amt elem)); [|reflexivity]. simpl.
  destruct (_get_regex_cases (AddtlNtryInf elem))
    as [(m & Hb & ->)|[(Hb & m & Hs & ->)|[(Hb & Hs & m & Ha & ->)
       |[(Hb & Hs & Ha & m & Hp & ->)|(Hb & Hs & Ha & Hp & ->)]]]];
    rewrite ?Hb, ?Hs, ?Ha, ?Hp; reflexivity.
Qed.

(** X3. What every record made by [process_entry] carries: the account of
    the statement, the date read, the whole narrative as description and a
    type that is Bank or Cash, Cash only for a cash/card narrative. A
    cash/card narrative wins over the other expressions: its record has the
    narrative as memo and no counter account. A counter account comes from
    the IBAN field of a structured-transfer narrative only. *)
Theorem process_entry_record (account_iban : string) (elem : Ntry) (t : Trsx) :
  process_entry float strptime account_iban elem = Ok t ->
  source_iban t = account_iban
  /\ strptime (ValDt elem) = Ok (date t)
  /\ transaction_desc t = AddtlNtryInf elem
  /\ (type t = "Bank" \/ (type t = "Cash" /\ matched BEA_re (AddtlNtryInf elem) = true))
  /\ (matched BEA_re (AddtlNtryInf elem) = true ->
      dest_iban t = None /\ memo t = Some (AddtlNtryInf elem))
  /\ (forall dest, dest_iban t = Some dest ->
      matched BEA_re (AddtlNtryInf elem) = false
      /\ matched SEPA_re (AddtlNtryInf elem) = true
      /\ find_sepa_field (AddtlNtryInf elem) "IBAN" = Some dest).
Proof.
  unfold process_entry, matched.
  destruct (strptime (ValDt elem)) as [d|]; [|discriminate].
  destruct (float (Amt elem)) as [a|]; [|discriminate].
  destruct (_get_regex_cases (AddtlNtryInf elem))
    as [(m & Hb & ->)|[(Hb & m & Hs & ->)|[(Hb & Hs & m & Ha & ->)
       |[(Hb & Hs & Ha & m & Hp & ->)|(Hb & Hs & Ha & Hp & ->)]]]];
    simpl; intro H; try discriminate; injection H as <-; simpl;
    rewrite ?Hb, ?Hs; repeat split; try discriminate; try (now left);
    try (intros dest Hd; now rewrite <- Hd).
  - destruct (String.eqb (group m "subtype") "B"); [now left | now right].
  - assumption.
Qed.

End ClassifyFacts.

Lemma process_entry_record_witness :
  source_iban (to_savings (Float.opp twelve_fifty)) = "NL01ABNA0000000001"
  /\ find_sepa_field (AddtlNtryInf sepa_debit) "IBAN" = Some "NL02ABNA0000000002".
Proof.
  destruct (@process_entry_record py_float py_strptime "NL01ABNA0000000001"
              sepa_debit (to_savings (Float.opp twelve_fifty)) eq_refl)
    as (Hsource & _ & _ & _ & _ & Hdest).
  split; [exact Hsource|]. now apply Hdest.
Defined.

(** ** Texts *)

Lemma append_assoc (a b c : string) : (a ++ b) ++ c = a ++ (b ++ c).
Proof. induction a as [|x a IH]; simpl; [reflexivity | now rewrite IH]. Qed.

Lemma length_append (a b : string) :
  String.length (a ++ b) = String.length a + String.length b.
Proof. induction a as [|x a IH]; simpl; [reflexivity | now rewrite IH]. Qed.

Lemma substring_skip (p s : string) (n k : nat) :
  substring (String.length p + n) k (p ++ s) = substring n k s.
Proof. induction p as [|x p IH]; simpl; [reflexivity | exact IH]. Qed.

Lemma substring_take (w s : string) : substring 0 (String.length w) (w ++ s) = w.
Proof.
  induction w as [|x w IH]; simpl; [now destruct s | now rewrite IH].
Qed.

Lemma length_substring (s : string) :
  forall a n, a + n <= String.length s -> String.length (substring a n s) = n.
Proof.
  induction s as [|x s IH]; intros a n H; simpl in H.
  - assert (a = 0) by lia. assert (n = 0) by lia. now subst.
  - destruct a as [|a]; simpl.
    + destruct n as [|n]; [reflexivity|]. simpl. rewrite (IH 0 n); [reflexivity | lia].
    + apply IH. lia.
Qed.

(** The text between two positions of a text in three parts. *)
Lemma slice_middle (p w s : string) :
  slice (p ++ w ++ s) (String.length p) (String.length p + String.length w) = w.
Proof.
  unfold slice.
  replace (String.length p + String.length w - String.length p)
    with (String.length w) by lia.
  rewrite <- (Nat.add_0_r (String.length p)) at 1.
  rewrite substring_skip. apply substring_take.
Qed.

(** ** The markers of a narrative *)

Section MarkerFacts.

Variable R : Type.

Lemma lit_inv (w : string) :
  forall (s : string) (i : nat) (caps : captures) (k : cont R) (x : R),
    match_here (Lit w) s i caps k = Some x ->
    exists s', s = w ++ s' /\ k s' (i + String.length w) caps = Some x.
Proof.
  induction w as [|c w IH]; intros s i caps k x H; simpl in H.
  - exists s. now rewrite Nat.add_0_r.
  - destruct s as [|a rest]; [discriminate|].
    destruct (Ascii.eqb a c) eqn:E; [|discriminate].
    apply Ascii.eqb_eq in E. subst a.
    destruct (IH _ _ _ _ _ H) as (s' & -> & Hk).
    exists s'. split; [reflexivity|]. simpl.
    now replace (i + S (String.length w)) with (S i + String.length w) by lia.
Qed.

Lemma alt_inv (r1 r2 : regex) (s : string) (i : nat) (caps : captures)
  (k : cont R) (x : R) :
  match_here (Alt r1 r2) s i caps k = Some x ->
  match_here r1 s i caps k = Some x \/ match_here r2 s i caps k = Some x.
Proof.
  simpl. destruct (match_here r1 s i caps k); [now left | now right].
Qed.

End MarkerFacts.

(** A match of /(...)/ : a slash, the group, a slash. *)
Lemma slash_group_slash (alt : regex) (subject s : string) (i : nat) (m : Match) :
  match_at (Seq (Chr "/") (Seq (Grp "1" alt) (Chr "/"))) subject s i = Some m ->
  exists s1,
    s = String "/" s1
    /\ match_here alt s1 (S i) []
         (fun s' i' caps' =>
            match s' with
            | String x _ =>
                if Ascii.eqb x "/"
                then Some {| m_string := subject; m_start := i; m_end := S i';
                             m_groups := ("1", (S i, i')) :: caps' |}
                else None
            | EmptyString => None
            end) = Some m.
Proof.
  unfold match_at. cbn [match_here].
  destruct s as [|a rest]; [discriminate|].
  destruct (Ascii.eqb a "/") eqn:E; [|discriminate].
  apply Ascii.eqb_eq in E. subst a. intro H. now exists rest.
Qed.

(** What a match of [SEPA_markers_re] looks like. *)
Lemma marker_shape (subject s : string) (i : nat) (m : Match) :
  match_at SEPA_markers_re subject s i = Some m ->
  exists w s',
    In w marker_tags
    /\ s = "/" ++ w ++ "/" ++ s'
    /\ m = {| m_string := subject; m_start := i;
              m_end := S (S i + String.length w);
              m_groups := [("1", (S i, S i + String.length w))] |}.
Proof.
  unfold SEPA_markers_re. intro H.
  apply slash_group_slash in H as (s0 & -> & H).
  repeat (apply alt_inv in H as [H|H]);
    apply lit_inv in H as (s1 & -> & H);
    (destruct s1 as [|b s2]; [discriminate|]);
    (destruct (Ascii.eqb b "/") eqn:E; [|discriminate]);
    apply Ascii.eqb_eq in E; subst b; injection H as <-;
    eexists; exists s2; (split; [|split; reflexivity]);
    unfold marker_tags; simpl; tauto.
Qed.

Lemma slice_tag (pre w s' : string) :
  slice (pre ++ "/" ++ w ++ "/" ++ s') (S (String.length pre))
    (S (String.length pre) + String.length w) = w.
Proof.
  replace (pre ++ "/" ++ w ++ "/" ++ s') with ((pre ++ "/") ++ w ++ "/" ++ s')
    by (now rewrite append_assoc).
  replace (S (String.length pre)) with (String.length (pre ++ "/"))
    by (rewrite length_append; simpl; lia).
  apply slice_middle.
Qed.

Lemma slice_marker (pre w s' : string) :
  slice (pre ++ "/" ++ w ++ "/" ++ s') (String.length pre)
    (S (S (String.length pre) + String.length w)) = "/" ++ w ++ "/".
Proof.
  replace (S (S (String.length pre) + String.length w))
    with (String.length pre + String.length ("/" ++ w ++ "/"))
    by (simpl; rewrite length_append; simpl; lia).
  replace (pre ++ "/" ++ w ++ "/" ++ s') with (pre ++ ("/" ++ w ++ "/") ++ s')
    by (simpl; now rewrite append_assoc).
  apply slice_middle.
Qed.

Lemma marker_is_marker (pre s : string) (m : Match) :
  match_at SEPA_markers_re (pre ++ s) s (String.length pre) = Some m ->
  m_start m = String.length pre /\ is_marker (pre ++ s) m.
Proof.
  intro H. apply marker_shape in H as (w & s' & Hw & -> & ->).
  split; [reflexivity|]. unfold is_marker, tag, group.
  cbn [m_groups m_string m_start m_end span_of]. rewrite String.eqb_refl.
  rewrite (slice_tag pre w s').
  split; [exact Hw|]. split; [lia|]. split.
  - rewrite length_append. simpl. rewrite length_append. simpl. lia.
  - apply slice_marker.
Qed.

Lemma laid_out_weaken (subject : string) (lo lo' : nat) (ms : list Match) :
  lo' <= lo -> laid_out subject lo ms -> laid_out subject lo' ms.
Proof.
  intros Hle H. destruct H as [|lo m ms Hlo Hm Hrest]; constructor;
    [lia | assumption | assumption].
Qed.

Lemma finditer_from_laid_out (s : string) :
  forall (pre : string) (skip : nat),
    laid_out (pre ++ s) (String.length pre + skip)
      (finditer_from SEPA_markers_re (pre ++ s) s (String.length pre) skip).
Proof.
  induction s as [|c rest IH]; intros pre skip; simpl; [constructor|].
  assert (Hsub : pre ++ String c rest = (pre ++ String c "") ++ rest)
    by (rewrite append_assoc; reflexivity).
  assert (Hlen : String.length (pre ++ String c "") = S (String.length pre))
    by (rewrite length_append; simpl; lia).
  destruct skip as [|n].
  - destruct (match_at SEPA_markers_re (pre ++ String c rest) (String c rest)
                (String.length pre)) as [m|] eqn:E.
    + destruct (marker_is_marker _ _ E) as [Hstart Hm].
      constructor; [lia | exact Hm |].
      assert (Hend : String.length pre < m_end m)
        by (destruct Hm as (_ & He & _); lia).
      specialize (IH (pre ++ String c "") (m_end m - String.length pre - 1)).
      rewrite <- Hsub, Hlen in IH.
      now replace (S (String.length pre) + (m_end m - String.length pre - 1))
        with (m_end m) in IH by lia.
    + specialize (IH (pre ++ String c "") 0).
      rewrite <- Hsub, Hlen in IH.
      apply (laid_out_weaken (lo := S (String.length pre) + 0)); [lia | exact IH].
  - specialize (IH (pre ++ String c "") n).
    rewrite <- Hsub, Hlen in IH.
    now replace (String.length pre + S n) with (S (String.length pre) + n) by lia.
Qed.

(** X4. The markers [SEPA_markers_re.finditer] finds in a narrative are laid
    out from left to right without overlap; each is the text /TAG/ for one of
    the eight names and lies inside the narrative. *)
Theorem finditer_markers_laid_out (info : string) :
  laid_out info 0 (finditer SEPA_markers_re info).
Proof. exact (finditer_from_laid_out info "" 0). Qed.

Lemma laid_out_markers (subject : string) (lo : nat) (ms : list Match) :
  laid_out subject lo ms -> Forall (is_marker subject) ms.
Proof. induction 1; constructor; assumption. Qed.

Lemma laid_out_app (subject : string) (ms1 ms2 : list Match) :
  forall lo, laid_out subject lo (ms1 ++ ms2) ->
             exists lo', laid_out subject lo' ms2.
Proof.
  induction ms1 as [|m ms1 IH]; intros lo H; simpl in H; [now exists lo|].
  inversion H; subst. eapply IH; eassumption.
Qed.

(** ** Field extraction, continued *)

Lemma find_sepa_loop_started (info field : string) (ms : list Match) :
  Forall (fun m => 0 < m_end m) ms ->
  forall st v,
    0 < st ->
    find_sepa_loop info field ms (Some st) = Some v ->
    exists run other rest,
      ms = (run ++ other :: rest)%list
      /\ Forall (fun m => String.eqb (tag m) field = true) run
      /\ String.eqb (tag other) field = false
      /\ v = slice info (match rev run with [] => st | m :: _ => m_end m end)
               (m_start other).
Proof.
  induction 1 as [|m ms Hm _ IH]; intros st v Hst H; simpl in H; [discriminate|].
  destruct (String.eqb (group m "1") field) eqn:E.
  - destruct (IH _ _ Hm H) as (run & other & rest & -> & Hrun & Hother & ->).
    exists (m :: run), other, rest. split; [reflexivity|].
    split; [constructor; assumption|]. split; [assumption|].
    simpl. now destruct (rev run).
  - destruct st as [|n]; [lia|]. injection H as <-.
    exists [], m, ms. now repeat split.
Qed.

Lemma find_sepa_loop_inv (info field : string) (ms : list Match) :
  Forall (fun m => 0 < m_end m) ms ->
  forall v,
    find_sepa_loop info field ms None = Some v ->
    exists pre run last_ other rest,
      ms = (pre ++ run ++ last_ :: other :: rest)%list
      /\ Forall (fun m => String.eqb (tag m) field = false) pre
      /\ Forall (fun m => String.eqb (tag m) field = true) run
      /\ String.eqb (tag last_) field = true
      /\ String.eqb (tag other) field = false
      /\ v = slice info (m_end last_) (m_start other).
Proof.
  induction 1 as [|m ms Hm Hms IH]; intros v H; simpl in H; [discriminate|].
  destruct (String.eqb (group m "1") field) eqn:E.
  - destruct (@find_sepa_loop_started info field ms Hms _ _ Hm H)
      as (run & other & rest & -> & Hrun & Hother & ->).
    destruct (rev run) as [|x l] eqn:Er.
    + assert (run = []) by (now apply (f_equal (@rev Match)) in Er;
                            rewrite rev_involutive in Er).
      subst run. exists [], [], m, other, rest. now repeat split.
    + assert (Hr : run = (rev l ++ [x])%list)
        by (apply (f_equal (@rev Match)) in Er;
            now rewrite rev_involutive in Er).
      subst run. apply Forall_app in Hrun as [Hl Hx].
      exists [], (m :: rev l), x, other, rest.
      split; [simpl; now rewrite <- app_assoc|].
      split; [constructor|]. split; [constructor; assumption|].
      split; [now inversion Hx|]. now split.
  - destruct (IH _ H) as (pre & run & last_ & other & rest & -> & Hpre & Hr).
    exists (m :: pre), run, last_, other, rest.
    split; [reflexivity|]. split; [constructor; assumption | exact Hr].
Qed.

Lemma find_sepa_loop_started_none (info field : string) (ms : list Match) :
  Forall (fun m => 0 < m_end m) ms ->
  forall st,
    0 < st ->
    find_sepa_loop info field ms (Some st) = None ->
    Forall (fun m => String.eqb (tag m) field = true) ms.
Proof.
  induction 1 as [|m ms Hm _ IH]; intros st Hst H; simpl in H; [constructor|].
  destruct (String.eqb (group m "1") field) eqn:E.
  - constructor; [exact E | now apply (IH (m_end m))].
  - destruct st; [lia | discriminate].
Qed.

Lemma find_sepa_loop_none (info field : string) (ms : list Match) :
  Forall (fun m => 0 < m_end m) ms ->
  find_sepa_loop info field ms None = None ->
  exists pre run,
    ms = (pre ++ run)%list
    /\ Forall (fun m => String.eqb (tag m) field = false) pre
    /\ Forall (fun m => String.eqb (tag m) field = true) run.
Proof.
  induction 1 as [|m ms Hm Hms IH]; intro H; simpl in H.
  - exists [], []. now repeat split.
  - destruct (String.eqb (group m "1") field) eqn:E.
    + exists [], (m :: ms). split; [reflexivity|]. split; [constructor|].
      constructor; [exact E|].
      now apply (@find_sepa_loop_started_none info field ms Hms _ Hm H).
    + destruct (IH H) as (pre & run & -> & Hpre & Hrun).
      exists (m :: pre), run. split; [reflexivity|].
      split; [constructor; assumption | assumption].
Qed.

Lemma markers_end (info : string) :
  Forall (fun m => 0 < m_end m) (finditer SEPA_markers_re info).
Proof. apply finditer_markers_end. Qed.

Lemma markers_laid_out (info : string) :
  laid_out info 0 (finditer SEPA_markers_re info).
Proof. exact (finditer_from_laid_out info "" 0). Qed.

(** X5. A field that is none of the eight names of [SEPA_markers_re] is
    never found, whatever the narrative. *)
Theorem find_sepa_field_unknown (info field : string) :
  ~ In field marker_tags -> find_sepa_field info field = None.
Proof.
  intro Hno.
  apply find_sepa_field_trailing
    with (pre := finditer SEPA_markers_re info) (run := []).
  - now rewrite app_nil_r.
  - pose proof (laid_out_markers (markers_laid_out info)) as Hall.
    eapply Forall_impl; [|exact Hall].
    intros m (Htag & _). apply String.eqb_neq. intros <-. contradiction.
  - constructor.
Qed.

(** X6. [find_sepa_field] returns a value in one situation only: the
    narrative passes the /TRTP/ test and, after markers of other fields, a
    run of markers of the field is ended by a marker of another field; the
    value is then the text from the end of the last marker of the run to the
    start of the marker that ends it. *)
Theorem find_sepa_field_some_iff (info field v : string) :
  find_sepa_field info field = Some v
  <-> exists trtp pre run last_ other rest,
        search SEPA_re info = Some trtp
        /\ finditer SEPA_markers_re info
           = (pre ++ run ++ last_ :: other :: rest)%list
        /\ Forall (fun m => String.eqb (tag m) field = false) pre
        /\ Forall (fun m => String.eqb (tag m) field = true) run
        /\ String.eqb (tag last_) field = true
        /\ String.eqb (tag other) field = false
        /\ v = slice info (m_end last_) (m_start other).
Proof.
  unfold find_sepa_field. split.
  - destruct (search SEPA_re info) as [trtp|]; [|discriminate]. intro H.
    destruct (@find_sepa_loop_inv info field _ (markers_end info) _ H)
      as (pre & run & last_ & other & rest & Hms & Hrest).
    exists trtp, pre, run, last_, other, rest. now repeat split.
  - intros (trtp & pre & run & last_ & other & rest & -> & Hms & Hpre & Hrun
            & Hlast & Hother & ->).
    rewrite Hms. apply find_sepa_loop_value; try assumption.
    pose proof (markers_end info) as Hall. rewrite Hms in Hall.
    apply Forall_app in Hall as [_ Hall]. apply Forall_app in Hall as [_ Hall].
    now inversion Hall.
Qed.

(** X7. [find_sepa_field] returns nothing exactly when the narrative fails
    the /TRTP/ test or every marker from the first marker of the field on is
    a marker of the field: a field that comes last is not returned. *)
Theorem find_sepa_field_none_iff (info field : string) :
  find_sepa_field info field = None
  <-> search SEPA_re info = None
      \/ exists pre run,
           finditer SEPA_markers_re info = (pre ++ run)%list
           /\ Forall (fun m => String.eqb (tag m) field = false) pre
           /\ Forall (fun m => String.eqb (tag m) field = true) run.
Proof.
  split.
  - unfold find_sepa_field.
    destruct (search SEPA_re info); [|now left]. intro H. right.
    now apply (@find_sepa_loop_none info field _ (markers_end info)).
  - intros [H|(pre & run & Hms & Hpre & Hrun)].
    + now apply find_sepa_field_gate.
    + now apply find_sepa_field_trailing with (pre := pre) (run := run).
Qed.

(** X8. A value returned by [find_sepa_field] is the text between two
    neighbouring markers: it lies inside the narrative, does not run
    backwards, and its length is the distance between the two markers. *)
Theorem find_sepa_field_between (info field v : string) :
  find_sepa_field info field = Some v ->
  exists before last_ other rest,
    finditer SEPA_markers_re info = (before ++ last_ :: other :: rest)%list
    /\ tag last_ = field
    /\ m_end last_ <= m_start other
    /\ m_start other <= String.length info
    /\ v = slice info (m_end last_) (m_start other)
    /\ String.length v = m_start other - m_end last_.
Proof.
  unfold find_sepa_field.
  destruct (search SEPA_re info) as [trtp|]; [|discriminate]. intro H.
  destruct (@find_sepa_loop_inv info field _ (markers_end info) _ H)
    as (pre & run & last_ & other & rest & Hms & _ & _ & Hlast & _ & ->).
  pose proof (markers_laid_out info) as Hlaid. rewrite Hms in Hlaid.
  rewrite app_assoc in Hlaid, Hms.
  apply laid_out_app in Hlaid as [lo Hlaid].
  inversion Hlaid as [|lo1 m1 ms1 _ _ Hnext]; subst.
  inversion Hnext as [|lo2 m2 ms2 Hle (_ & Hend & Hin & _) _]; subst.
  exists (pre ++ run)%list, last_, other, rest.
  split; [exact Hms|]. split; [now apply String.eqb_eq|].
  split; [exact Hle|]. split; [lia|]. split; [reflexivity|].
  unfold slice. apply length_substring. lia.
Qed.

Lemma find_sepa_field_unknown_witness :
  find_sepa_field (AddtlNtryInf sepa_debit) "ADDR" = None.
Proof.
  apply (@find_sepa_field_unknown (AddtlNtryInf sepa_debit) "ADDR").
  unfold marker_tags. simpl. intros [H|[H|[H|[H|[H|[H|[H|[H|[]]]]]]]]];
    discriminate H.
Defined.

Lemma find_sepa_field_between_witness :
  exists before last_ other rest,
    finditer SEPA_markers_re (AddtlNtryInf sepa_debit)
    = (before ++ last_ :: other :: rest)%list
    /\ tag last_ = "NAME"
    /\ m_end last_ <= m_start other
    /\ m_start other <= String.length (AddtlNtryInf sepa_debit)
    /\ "J SMITH" = slice (AddtlNtryInf sepa_debit) (m_end last_) (m_start other)
    /\ String.length "J SMITH" = m_start other - m_end last_.
Proof.
  apply (@find_sepa_field_between (AddtlNtryInf sepa_debit) "NAME" "J SMITH").
  reflexivity.
Defined.

(** ** The aggregator, continued *)

Lemma dict_keys_append (d : groups) (k x : string) :
  map fst (dict_append d k x) = map fst d.
Proof.
  induction d as [|[a w] d IH]; simpl; [reflexivity|].
  destruct (String.eqb a k); simpl; [reflexivity | now rewrite IH].
Qed.

Lemma dict_keys_set (d : groups) (k : string) (v : list string) :
  map fst (dict_set d k v)
  = (map fst d ++ (if dict_mem d k then [] else [k]))%list.
Proof.
  unfold dict_mem. induction d as [|[a w] d IH]; simpl; [reflexivity|].
  destruct (String.eqb a k); simpl; [now rewrite app_nil_r | now rewrite IH].
Qed.

Section AggregatorMore.

Variable accounts : registry.
Variable hash : string -> Z.
Variable str_float : Float.t -> string.

Local Abbreviation iadd := (__iadd__ accounts hash str_float).
Local Abbreviation contains := (set_contains hash str_float).
Local Abbreviation tl := QIFOutput._transaction_list.

(** X9. [__iadd__] raises in one case only: the record is new, its account
    has no group yet and is not in the registry. It then raises KeyError
    with that account and leaves an empty group for it behind, the set and
    the counters being as before. *)
Theorem iadd_raises (t : Trsx) (q : QIFOutput.t) :
  if contains (tl q) t || dict_mem (QIFOutput.accounts q) (source_iban t)
     || registry_mem accounts (Some (source_iban t))
  then is_ok (fst (iadd t q)) = true
  else iadd t q
       = (Raise (KeyError (source_iban t)),
          set_accounts (fun d => (d ++ [(source_iban t, [])])%list) q).
Proof.
  rewrite iadd_cases. unfold registry_mem.
  destruct (contains (tl q) t); [reflexivity|].
  destruct (dict_mem (QIFOutput.accounts q) (source_iban t)) eqn:Ed;
    [reflexivity|].
  destruct (registry_get accounts (source_iban t)); [reflexivity|]. simpl.
  unfold set_accounts. now rewrite dict_set_new.
Qed.

(** X10. After [__iadd__] raised for a record, the same record is accepted
    when added again: its block then stands alone in the group of its
    account, which has no header. *)
Theorem iadd_after_raise (t : Trsx) (q q1 : QIFOutput.t) (e : exn) :
  iadd t q = (Raise e, q1) ->
  exists q2,
    iadd t q1 = (Ok tt, q2)
    /\ dict_get (QIFOutput.accounts q2) (source_iban t)
       = Some [block_of accounts str_float t]
    /\ QIFOutput.added q2 = S (QIFOutput.added q)
    /\ tl q2 = (tl q ++ [t])%list.
Proof.
  rewrite iadd_cases.
  destruct (contains (tl q) t) eqn:Ec; [discriminate|].
  destruct (dict_mem (QIFOutput.accounts q) (source_iban t)); [discriminate|].
  destruct (registry_get accounts (source_iban t)); [discriminate|].
  intro H. injection H as _ <-.
  rewrite iadd_cases. simpl. rewrite Ec.
  unfold dict_mem. rewrite dict_get_set.
  eexists. split; [reflexivity|]. simpl.
  rewrite dict_get_append, String.eqb_refl, dict_get_set.
  unfold set_add. rewrite Ec. now repeat split.
Qed.

(** X11. An addition never removes or reorders what was collected: every
    group keeps its place and its entries and may only get more at its end,
    new groups come last, and the records of the set stay. This holds when
    the addition raises as well. *)
Theorem iadd_grows (t : Trsx) (q : QIFOutput.t) :
  (forall k v, dict_get (QIFOutput.accounts q) k = Some v ->
     exists v', dict_get (QIFOutput.accounts (snd (iadd t q))) k
                = Some (v ++ v')%list)
  /\ (exists new, map fst (QIFOutput.accounts (snd (iadd t q)))
                  = (map fst (QIFOutput.accounts q) ++ new)%list)
  /\ (exists new, tl (snd (iadd t q)) = (tl q ++ new)%list).
Proof.
  rewrite iadd_cases.
  destruct (contains (tl q) t) eqn:Ec.
  { simpl. split; [intros k v H; exists []; now rewrite app_nil_r|].
    split; exists []; now rewrite app_nil_r. }
  destruct (dict_mem (QIFOutput.accounts q) (source_iban t)) eqn:Ed.
  { simpl. split; [|split].
    - intros k v H. rewrite dict_get_append, H.
      destruct (String.eqb (source_iban t) k); simpl;
        [now eexists | exists []; now rewrite app_nil_r].
    - exists []. now rewrite dict_keys_append, app_nil_r.
    - exists [t]. unfold set_add. now rewrite Ec. }
  assert (Hother : forall k v, dict_get (QIFOutput.accounts q) k = Some v ->
                               String.eqb (source_iban t) k = false).
  { intros k v H. apply String.eqb_neq. intros <-.
    unfold dict_mem in Ed. now rewrite H in Ed. }
  destruct (registry_get accounts (source_iban t)); simpl; (split; [|split]).
  - intros k v H. rewrite !dict_get_append, (Hother k v H).
    rewrite dict_get_set_other by exact (Hother k v H).
    exists []. now rewrite app_nil_r.
  - exists [source_iban t]. now rewrite !dict_keys_append, dict_keys_set, Ed.
  - exists [t]. unfold set_add. now rewrite Ec.
  - intros k v H. rewrite dict_get_set_other by exact (Hother k v H).
    exists []. now rewrite app_nil_r.
  - exists [source_iban t]. now rewrite dict_keys_set, Ed.
  - exists []. now rewrite app_nil_r.
Qed.

End AggregatorMore.

Lemma iadd_after_raise_witness :
  exists q2,
    __iadd__ savings_only py_hash py_str_float (to_savings twelve_fifty)
      (snd (__iadd__ savings_only py_hash py_str_float (to_savings twelve_fifty)
              __init__))
    = (Ok tt, q2)
    /\ dict_get (QIFOutput.accounts q2) "NL01ABNA0000000001"
       = Some [block_of savings_only py_str_float (to_savings twelve_fifty)]
    /\ QIFOutput.added q2 = 1
    /\ QIFOutput._transaction_list q2 = [to_savings twelve_fifty].
Proof.
  apply (@iadd_after_raise savings_only py_hash py_str_float
           (to_savings twelve_fifty) __init__
           (snd (__iadd__ savings_only py_hash py_str_float
                   (to_savings twelve_fifty) __init__))
           (KeyError "NL01ABNA0000000001")).
  reflexivity.
Defined.

(** ** Equality and the fingerprint *)

Lemma float_eqb_eq (a b : Float.t) :
  Float.eqb a b = true -> amount_is_zero b = false -> a = b.
Proof.
  unfold Float.eqb, SFeqb, SFcompare.
  destruct a as [s1|s1| |s1 m1 e1], b as [s2|s2| |s2 m2 e2];
    try discriminate; try (destruct s1; discriminate);
    try (destruct s2; discriminate).
  - destruct s1, s2; try discriminate; reflexivity.
  - intros H _.
    destruct s1, s2; try discriminate;
      destruct (Z.compare e1 e2) eqn:Ee; try discriminate;
      destruct (Pos.compare_cont Eq m1 m2) eqn:Em; try discriminate;
      apply Z.compare_eq in Ee; apply Pos.compare_eq in Em; now subst.
Qed.

Section FingerprintFacts.

Variable hash : string -> Z.
Variable str_float : Float.t -> string.

Lemma Trsx_eq_same (e t : Trsx) :
  Trsx_eq e t = true -> amount_is_zero (amount t) = false -> same_fields e t.
Proof.
  unfold Trsx_eq. intros H Hz.
  repeat (apply andb_prop in H as [H ?]).
  unfold same_fields. repeat split;
    try (now apply String.eqb_eq); try (now apply option_eqb_eq);
    try (now apply datetime_eqb_eq).
  now apply float_eqb_eq.
Qed.

(** X12. The hash never hides an equal record whose amount is not zero: two
    records that [__eq__] finds equal then have the same fingerprint, and a
    record is in the set exactly when the set has a record equal to it. *)
Theorem set_contains_is_eq (s : list Trsx) (t : Trsx) :
  amount_is_zero (amount t) = false ->
  (forall e, Trsx_eq e t = true ->
             fingerprint str_float e = fingerprint str_float t)
  /\ set_contains hash str_float s t = existsb (fun e => Trsx_eq e t) s.
Proof.
  intro Hz.
  assert (Hfp : forall e, Trsx_eq e t = true ->
                          fingerprint str_float e = fingerprint str_float t).
  { intros e He. apply fingerprint_same_fields. now apply Trsx_eq_same. }
  split; [exact Hfp|].
  unfold set_contains, Trsx_hash.
  induction s as [|e s IH]; simpl; [reflexivity|]. rewrite IH. f_equal.
  destruct (Trsx_eq e t) eqn:He; [|apply andb_false_r].
  now rewrite (Hfp e He), Z.eqb_refl.
Qed.

End FingerprintFacts.

Lemma set_contains_is_eq_witness :
  set_contains py_hash py_str_float [to_savings twelve_fifty; groceries] groceries
  = existsb (fun e => Trsx_eq e groceries) [to_savings twelve_fifty; groceries].
Proof.
  apply (proj2 (@set_contains_is_eq py_hash py_str_float
                  [to_savings twelve_fifty; groceries] groceries eq_refl)).
Defined.

(** ** The generator and the additions *)

Section GeneratorFacts.

Variable accounts : registry.
Variable hash : string -> Z.
Variable str_float : Float.t -> string.
Variable float : string -> result Float.t.
Variable strptime : string -> result datetime.

Local Abbreviation iadd := (__iadd__ accounts hash str_float).
Local Abbreviation tl := QIFOutput._transaction_list.

Lemma add_all_app (xs ys : list Trsx) (q : QIFOutput.t) :
  add_all accounts hash str_float (xs ++ ys) q
  = match add_all accounts hash str_float xs q with
    | (Ok _, q') => add_all accounts hash str_float ys q'
    | (Raise e, q') => (Raise e, q')
    end.
Proof.
  revert q. induction xs as [|x xs IH]; intro q; [reflexivity|].
  simpl. unfold bind. destruct (iadd x q) as [[[]|e] q1]; [apply IH | reflexivity].
Qed.

Lemma add_entries_yield (account_iban : string) (entries : list Ntry) :
  forall q,
    add_entries accounts hash str_float float strptime account_iban entries q
    = finish
        (add_all accounts hash str_float
           (fst (yield_entries accounts float strptime account_iban entries)) q)
        (snd (yield_entries accounts float strptime account_iban entries)).
Proof.
  induction entries as [|elem rest IH]; intro q; [reflexivity|].
  cbn [add_entries yield_entries]. unfold bind at 1, lift.
  destruct (process_entry float strptime account_iban elem) as [trsx|e];
    [|reflexivity].
  destruct (is_transfer_transaction accounts trsx).
  - destruct (complementary accounts trsx) as [compl|e].
    + destruct (yield_entries accounts float strptime account_iban rest)
        as [more err] eqn:Ey.
      cbn [fst snd add_all]. unfold bind.
      destruct (iadd trsx q) as [[[]|e] q1]; [|reflexivity].
      destruct (iadd compl q1) as [[[]|e] q2]; [|reflexivity].
      apply IH.
    + cbn [fst snd add_all]. unfold bind.
      destruct (iadd trsx q) as [[[]|e'] q1]; reflexivity.
  - destruct (yield_entries accounts float strptime account_iban rest)
      as [more err] eqn:Ey.
    cbn [fst snd add_all]. unfold bind.
    destruct (iadd trsx q) as [[[]|e] q1]; [|reflexivity].
    unfold ret. apply IH.
Qed.

Lemma add_file_yield (file : source_file) (q : QIFOutput.t) :
  add_file accounts hash str_float float strptime file q
  = finish
      (add_all accounts hash str_float
         (fst (_trsx_list accounts float strptime file)) q)
      (snd (_trsx_list accounts float strptime file)).
Proof. destruct file; [apply add_entries_yield | reflexivity]. Qed.

Lemma add_files_yield (files : list source_file) :
  forall q,
    add_files accounts hash str_float float strptime files q
    = finish
        (add_all accounts hash str_float
           (fst (trsx_of_files accounts float strptime files)) q)
        (snd (trsx_of_files accounts float strptime files)).
Proof.
  induction files as [|file rest IH]; intro q; [reflexivity|].
  cbn [add_files trsx_of_files]. unfold bind. rewrite add_file_yield.
  destruct (_trsx_list accounts float strptime file) as [ys [e|]];
    cbn [fst snd].
  - destruct (add_all accounts hash str_float ys q) as [[[]|e'] q1]; reflexivity.
  - destruct (trsx_of_files accounts float strptime rest) as [more err].
    cbn [fst snd] in *. rewrite add_all_app.
    destruct (add_all accounts hash str_float ys q) as [[[]|e'] q1];
      [|reflexivity].
    cbn [finish]. apply IH.
Qed.

(** X13. The run is the generator followed by the additions: [main] adds
    the records that [_trsx_list] yields for the files, in their order, up
    to the first exception, be it of an addition or of the generator, and
    then prints the groups. *)
Theorem main_adds_yielded (files : list source_file) :
  main accounts hash str_float float strptime files
  = (fst (finish
            (add_all accounts hash str_float
               (fst (trsx_of_files accounts float strptime files))
               (__enter__ __init__))
            (snd (trsx_of_files accounts float strptime files))),
     __exit__
       (snd (add_all accounts hash str_float
               (fst (trsx_of_files accounts float strptime files))
               (__enter__ __init__)))).
Proof.
  unfold main. rewrite add_files_yield.
  destruct (add_all accounts hash str_float
              (fst (trsx_of_files accounts float strptime files))
              (__enter__ __init__)) as [[[]|e] q]; reflexivity.
Qed.

(** The generator yields one or two records for each entry. *)
Lemma yield_entries_length (account_iban : string) (entries : list Ntry) :
  snd (yield_entries accounts float strptime account_iban entries) = None ->
  List.length entries
  <= List.length (fst (yield_entries accounts float strptime account_iban entries))
  <= 2 * List.length entries.
Proof.
  induction entries as [|elem rest IH]; simpl; [lia|].
  destruct (process_entry float strptime account_iban elem) as [trsx|e];
    [|discriminate].
  destruct (is_transfer_transaction accounts trsx).
  - destruct (complementary accounts trsx) as [compl|e]; [|discriminate].
    destruct (yield_entries accounts float strptime account_iban rest)
      as [more err]. simpl in *. intro H. specialize (IH H). lia.
  - destruct (yield_entries accounts float strptime account_iban rest)
      as [more err]. simpl in *. intro H. specialize (IH H). lia.
Qed.

End GeneratorFacts.

(** ** The summary of a run *)

Section SummaryFacts.

Variable accounts : registry.
Variable hash : string -> Z.
Variable str_float : Float.t -> string.
Variable float : string -> result Float.t.
Variable strptime : string -> result datetime.

Local Abbreviation tl := QIFOutput._transaction_list.

Lemma finish_ok (r : result unit * QIFOutput.t) (err : option exn)
  (q : QIFOutput.t) :
  finish r err = (Ok tt, q) -> r = (Ok tt, q) /\ err = None.
Proof.
  destruct r as [[[]|e] q']; simpl; [|discriminate].
  destruct err; [discriminate|]. intro H. now injection H as <-.
Qed.

(** X14. When [main] returns, the three numbers it reports are: as added,
    the records of the set; as duplicated, the other records the generator
    yielded; as accounts, the distinct accounts the yielded records were
    read from. The file then holds one entry for each added record and one
    for each account. *)
Theorem main_summary (files : list source_file) (q : QIFOutput.t) :
  main accounts hash str_float float strptime files = (Ok tt, q) ->
  snd (trsx_of_files accounts float strptime files) = None
  /\ QIFOutput.added q = List.length (tl q)
  /\ QIFOutput.added q + QIFOutput.skipped q
     = List.length (fst (trsx_of_files accounts float strptime files))
  /\ List.length (QIFOutput.accounts q)
     = List.length (first_seen (fst (trsx_of_files accounts float strptime files)))
  /\ List.length (QIFOutput.output_file q)
     = QIFOutput.added q + List.length (QIFOutput.accounts q).
Proof.
  unfold main. rewrite add_files_yield.
  destruct (finish _ _) as [r q'] eqn:E. intro H. injection H as -> <-.
  apply finish_ok in E as [E Herr]. split; [exact Herr|].
  pose proof (@add_all_consistent accounts hash str_float
                (fst (trsx_of_files accounts float strptime files))) as Hc.
  unfold triple in Hc. specialize (Hc _ (init_consistent accounts str_float)).
  rewrite E in Hc.
  destruct Hc as (Ha & Hn & Ho).
  destruct (add_all_accepted accounts hash str_float _ _ E) as [Htl Hcount].
  simpl in Htl, Hcount.
  assert (Hkeys : List.length (QIFOutput.accounts q')
                  = List.length (first_seen (tl q'))).
  { rewrite Ha. unfold grouped. now rewrite length_map. }
  unfold __exit__, print_to_file. simpl.
  split; [exact Hn|]. split; [exact Hcount|]. split.
  - rewrite Hkeys, Htl.
    now rewrite (first_seen_accepted hash str_float _ []).
  - rewrite Ho, Hkeys, Ha. simpl. rewrite grouped_count, Hn. reflexivity.
Qed.

End SummaryFacts.

Lemma main_summary_witness :
  let files := [Xml "NL01ABNA0000000001" [sepa_debit; sepa_debit]] in
  let q := snd (main two_accounts py_hash py_str_float py_float py_strptime files) in
  snd (trsx_of_files two_accounts py_float py_strptime files) = None
  /\ QIFOutput.added q = List.length (QIFOutput._transaction_list q)
  /\ QIFOutput.added q + QIFOutput.skipped q
     = List.length (fst (trsx_of_files two_accounts py_float py_strptime files))
  /\ List.length (QIFOutput.accounts q)
     = List.length
         (first_seen (fst (trsx_of_files two_accounts py_float py_strptime files)))
  /\ List.length (QIFOutput.output_file q)
     = QIFOutput.added q + List.length (QIFOutput.accounts q).
Proof.
  intros files q.
  apply (@main_summary two_accounts py_hash py_str_float py_float py_strptime
           files q).
  vm_compute. reflexivity.
Defined.

(** ** Transfers seen from both accounts *)

Section MirrorFacts.

Variable accounts : registry.
Variable hash : string -> Z.
Variable str_float : Float.t -> string.
Variable float : string -> result Float.t.
Variable strptime : string -> result datetime.

Local Abbreviation iadd := (__iadd__ accounts hash str_float).
Local Abbreviation contains := (set_contains hash str_float).
Local Abbreviation tl := QIFOutput._transaction_list.

Lemma process_entry_source (account_iban : string) (elem : Ntry) (t : Trsx) :
  process_entry float strptime account_iban elem = Ok t ->
  source_iban t = account_iban.
Proof.
  unfold process_entry.
  destruct (strptime (ValDt elem)); [|discriminate].
  destruct (float (Amt elem)); [|discriminate].
  destruct (_get_regex (AddtlNtryInf elem)) as [[ty|] [m|]]; try discriminate.
  intro H.
  repeat match type of H with
         | (if ?b then _ else _) = _ => destruct b
         end;
    try discriminate; now injection H as <-.
Qed.

Lemma Trsx_eq_source (e t : Trsx) :
  String.eqb (source_iban e) (source_iban t) = false -> Trsx_eq e t = false.
Proof. intro H. unfold Trsx_eq. now rewrite H. Qed.

(** The first record of a registered account in a new aggregator. *)
Lemma iadd_first (t : Trsx) (name : string) :
  registry_get accounts (source_iban t) = Some name ->
  iadd t (__enter__ __init__)
  = (Ok tt,
     {| QIFOutput.output_file := [];
        QIFOutput.accounts :=
          [(source_iban t,
            [qif_account_tpl name "Bank"; block_of accounts str_float t])];
        QIFOutput._transaction_list := [t];
        QIFOutput.added := 1;
        QIFOutput.skipped := 0 |}).
Proof.
  intro Hr. rewrite iadd_cases. simpl. rewrite Hr. unfold accepted_state. simpl.
  rewrite !String.eqb_refl. cbn [dict_append]. now rewrite String.eqb_refl.
Qed.

(** The first record of another registered account after it. *)
Lemma iadd_other (t c : Trsx) (name : string) (g : list string) :
  String.eqb (source_iban t) (source_iban c) = false ->
  registry_get accounts (source_iban c) = Some name ->
  iadd c
    {| QIFOutput.output_file := [];
       QIFOutput.accounts := [(source_iban t, g)];
       QIFOutput._transaction_list := [t];
       QIFOutput.added := 1;
       QIFOutput.skipped := 0 |}
  = (Ok tt,
     {| QIFOutput.output_file := [];
        QIFOutput.accounts :=
          [(source_iban t, g);
           (source_iban c,
            [qif_account_tpl name "Bank"; block_of accounts str_float c])];
        QIFOutput._transaction_list := [t; c];
        QIFOutput.added := 2;
        QIFOutput.skipped := 0 |}).
Proof.
  intros Hne Hr. rewrite iadd_cases. unfold accepted_state, set_add. simpl.
  rewrite (Trsx_eq_source t c Hne), andb_false_r. simpl.
  unfold dict_mem. simpl. rewrite Hne, Hr. simpl.
  rewrite ?Hne, ?String.eqb_refl. cbn [dict_append]. rewrite ?Hne. cbn [dict_append].
  rewrite ?String.eqb_refl. cbn [dict_append]. rewrite ?Hne, ?String.eqb_refl.
  cbn [dict_append]. rewrite ?Hne, ?String.eqb_refl. reflexivity.
Qed.

(** The state after a transfer and its complement were added to a new
    aggregator. *)
Lemma add_pair (t : Trsx) (dest name1 name2 : string) :
  dest_iban t = Some dest ->
  String.eqb (source_iban t) dest = false ->
  registry_get accounts (source_iban t) = Some name1 ->
  registry_get accounts dest = Some name2 ->
  exists c,
    complementary accounts t = Ok c
    /\ is_transfer_transaction accounts t = true
    /\ source_iban c = dest
    /\ add_all accounts hash str_float [t; c] (__enter__ __init__)
       = (Ok tt,
          {| QIFOutput.output_file := [];
             QIFOutput.accounts :=
               [(source_iban t,
                 [qif_account_tpl name1 "Bank"; block_of accounts str_float t]);
                (dest,
                 [qif_account_tpl name2 "Bank"; block_of accounts str_float c])];
             QIFOutput._transaction_list := [t; c];
             QIFOutput.added := 2;
             QIFOutput.skipped := 0 |}).
Proof.
  intros Hd Hne Hr1 Hr2.
  assert (Ht : is_transfer_transaction accounts t = true).
  { unfold is_transfer_transaction, registry_mem. now rewrite Hd, Hr2. }
  eexists. split; [exact (complementary_transfer accounts t Hd Ht)|].
  split; [exact Ht|]. split; [reflexivity|].
  cbn [add_all]. unfold bind. rewrite (iadd_first t Hr1).
  rewrite iadd_other with (name := name2); [reflexivity | exact Hne | exact Hr2].
Qed.

Lemma trsx_of_transfer (account_iban : string) (elem : Ntry) (t c : Trsx) :
  process_entry float strptime account_iban elem = Ok t ->
  is_transfer_transaction accounts t = true ->
  complementary accounts t = Ok c ->
  yield_entries accounts float strptime account_iban [elem] = ([t; c], None).
Proof. intros Hp Ht Hc. simpl. now rewrite Hp, Ht, Hc. Qed.

(** X15. Double entry: an entry that is a transfer between two different
    registered accounts, processed by a new aggregator, gives two records,
    the one read and its complement, and the file gets the header and the
    block of the statement's account followed by the header and the block of
    the counter account. *)
Theorem transfer_entry_mirrored (account_iban : string) (elem : Ntry)
  (t : Trsx) (dest name1 name2 : string) :
  process_entry float strptime account_iban elem = Ok t ->
  dest_iban t = Some dest ->
  String.eqb account_iban dest = false ->
  registry_get accounts account_iban = Some name1 ->
  registry_get accounts dest = Some name2 ->
  exists c q,
    complementary accounts t = Ok c
    /\ main accounts hash str_float float strptime [Xml account_iban [elem]]
       = (Ok tt, q)
    /\ QIFOutput._transaction_list q = [t; c]
    /\ QIFOutput.added q = 2
    /\ QIFOutput.skipped q = 0
    /\ QIFOutput.output_file q
       = [qif_account_tpl name1 "Bank"; block_of accounts str_float t;
          qif_account_tpl name2 "Bank"; block_of accounts str_float c].
Proof.
  intros Hp Hd Hne Hr1 Hr2.
  pose proof (process_entry_source _ _ Hp) as Hs.
  rewrite <- Hs in Hne, Hr1.
  destruct (add_pair t Hd Hne Hr1 Hr2) as (c & Hc & Ht & _ & Hadd).
  exists c. eexists. split; [exact Hc|].
  unfold main. rewrite add_files_yield. cbn [trsx_of_files _trsx_list].
  rewrite (trsx_of_transfer _ _ Hp Ht Hc). cbn [fst snd app].
  rewrite Hadd. cbn [finish]. split; [reflexivity|]. now repeat split.
Qed.





End MirrorFacts.

Lemma transfer_entry_mirrored_witness :
  exists c q,
    complementary two_accounts (to_savings (Float.opp twelve_fifty)) = Ok c
    /\ main two_accounts py_hash py_str_float py_float py_strptime
         [Xml "NL01ABNA0000000001" [sepa_debit]] = (Ok tt, q)
    /\ QIFOutput._transaction_list q = [to_savings (Float.opp twelve_fifty); c]
    /\ QIFOutput.added q = 2
    /\ QIFOutput.skipped q = 0
    /\ QIFOutput.output_file q
       = [qif_account_tpl "Checking" "Bank";
          block_of two_accounts py_str_float (to_savings (Float.opp twelve_fifty));
          qif_account_tpl "Savings" "Bank";
          block_of two_accounts py_str_float c].
Proof.
  apply (@transfer_entry_mirrored two_accounts py_hash py_str_float py_float
           py_strptime "NL01ABNA0000000001" sepa_debit
           (to_savings (Float.opp twelve_fifty)) "NL02ABNA0000000002"
           "Checking" "Savings");
    reflexivity.
Defined.


(** ** Loading the registry *)

Lemma registry_get_set (accounts : registry) (k k' v : string) :
  registry_get (registry_set accounts k v) k'
  = if String.eqb k k' then Some v else registry_get accounts k'.
Proof.
  induction accounts as [|[a w] accounts IH]; simpl; [reflexivity|].
  destruct (String.eqb a k) eqn:Ea; simpl.
  - apply String.eqb_eq in Ea. subst a. now destruct (String.eqb k k').
  - destruct (String.eqb a k') eqn:Ea'; [|exact IH].
    apply String.eqb_eq in Ea'. subst a. now rewrite String.eqb_sym, Ea.
Qed.

Lemma find_last (A : Type) (f : A -> bool) (l : list A) (x : A) :
  find f (l ++ [x])
  = match find f l with Some y => Some y | None => if f x then Some x else None end.
Proof.
  induction l as [|y l IH]; simpl; [reflexivity|].
  destruct (f y); [reflexivity | exact IH].
Qed.

Lemma load_sections_lookup (sections : list account_conf) :
  forall (acc reg : registry) (iban : string),
    load_sections sections acc = Ok reg ->
    registry_get reg iban
    = match section_of sections iban with
      | Some c => Some (display_name c iban)
      | None => registry_get acc iban
      end.
Proof.
  unfold section_of.
  induction sections as [|c rest IH]; intros acc reg iban H; simpl in H.
  - injection H as <-. reflexivity.
  - destruct (conf_iban c) as [[k|e]|] eqn:Ek; simpl in H; try discriminate.
    assert (Hn : exists name,
               load_sections rest (registry_set acc k name) = Ok reg
               /\ display_name c k = name).
    { unfold display_name.
      destruct (conf_name c) as [[name|e]|]; simpl in H; try discriminate;
        eexists; split; try exact H; reflexivity. }
    destruct Hn as (name & Hl & Hname).
    rewrite (IH _ _ iban Hl). simpl rev. rewrite find_last.
    destruct (find _ (rev rest)); [reflexivity|].
    rewrite registry_get_set. unfold configures. rewrite Ek.
    destruct (String.eqb k iban) eqn:E; [|reflexivity].
    apply String.eqb_eq in E. subst k. now rewrite Hname.
Qed.

Lemma load_sections_step (c : account_conf) (rest : list account_conf)
  (acc : registry) :
  load_sections (c :: rest) acc
  = match section_error c with
    | Some e => Raise e
    | None =>
        match conf_iban c with
        | Some (Ok k) => load_sections rest (registry_set acc k (display_name c k))
        | _ => Raise (KeyError "iban")
        end
    end.
Proof.
  unfold section_error, display_name. simpl.
  destruct (conf_iban c) as [[k|e]|]; simpl; try reflexivity.
  destruct (conf_name c) as [[name|e]|]; reflexivity.
Qed.

Lemma load_sections_ok (sections : list account_conf) :
  forall acc,
    is_ok (load_sections sections acc)
    = forallb
        (fun c => match section_error c with Some _ => false | None => true end)
        sections.
Proof.
  induction sections as [|c rest IH]; intro acc; [reflexivity|].
  rewrite load_sections_step. cbn [forallb].
  destruct (section_error c) eqn:Ee; [reflexivity|].
  unfold section_error in Ee.
  destruct (conf_iban c) as [[k|e]|]; try discriminate. apply IH.
Qed.

Lemma load_sections_raise (sections : list account_conf) (e : exn) :
  forall acc,
    load_sections sections acc = Raise e
    <-> exists before c after,
          sections = (before ++ c :: after)%list
          /\ Forall (fun c' => section_error c' = None) before
          /\ section_error c = Some e.
Proof.
  induction sections as [|c rest IH]; intro acc.
  - split; [discriminate|]. intros (before & c & after & H & _).
    now destruct before.
  - rewrite load_sections_step. destruct (section_error c) as [e'|] eqn:Ee.
    + split.
      * intro H. injection H as ->. exists [], c, rest. now repeat split.
      * intros (before & c' & after & H & Hb & Hc).
        destruct before as [|b before]; simpl in H; injection H as <- _.
        -- congruence.
        -- inversion Hb; congruence.
    + assert (Hk : exists k, conf_iban c = Some (Ok k)).
      { unfold section_error in Ee.
        destruct (conf_iban c) as [[k|e']|]; try discriminate. now exists k. }
      destruct Hk as [k Hk]. rewrite Hk, IH. split.
      * intros (before & c' & after & -> & Hb & Hc).
        exists (c :: before), c', after. split; [reflexivity|].
        split; [now constructor | exact Hc].
      * intros (before & c' & after & H & Hb & Hc).
        destruct before as [|b before]; simpl in H; injection H as <- ->.
        -- congruence.
        -- exists before, c', after. split; [reflexivity|].
           split; [now inversion Hb | exact Hc].
Qed.

(** X17. [_load_accounts] raises exactly when a section cannot be read: the
    section lacks the option iban, which is a KeyError, or reading its iban,
    or its name when it has one, raises. The exception is that of the first
    such section. Otherwise the registry it returns knows the accounts of
    the sections and no other: an account has the name of the last section
    that configures it, and its IBAN for a name when that section gives
    none. *)
Theorem _load_accounts_lookup (sections : list account_conf) :
  is_ok (_load_accounts sections)
  = forallb
      (fun c => match section_error c with Some _ => false | None => true end)
      sections
  /\ (forall e,
        _load_accounts sections = Raise e
        <-> exists before c after,
              sections = (before ++ c :: after)%list
              /\ Forall (fun c' => section_error c' = None) before
              /\ section_error c = Some e)
  /\ forall reg iban,
       _load_accounts sections = Ok reg ->
       registry_get reg iban
       = option_map (fun c => display_name c iban) (section_of sections iban).
Proof.
  split; [apply load_sections_ok|]. split; [intro e; apply load_sections_raise|].
  intros reg iban H. unfold _load_accounts in H.
  rewrite (load_sections_lookup sections [] iban H).
  now destruct (section_of sections iban).
Qed.

Lemma _load_accounts_lookup_witness :
  registry_get
    [("NL01ABNA0000000001", "Checking");
     ("NL02ABNA0000000002", "NL02ABNA0000000002")]
    "NL02ABNA0000000002"
  = option_map (fun c => display_name c "NL02ABNA0000000002")
      (section_of
         [{| conf_iban := Some (Ok "NL01ABNA0000000001");
             conf_name := Some (Ok "Old") |};
          {| conf_iban := Some (Ok "NL02ABNA0000000002"); conf_name := None |};
          {| conf_iban := Some (Ok "NL01ABNA0000000001");
             conf_name := Some (Ok "Checking") |}]
         "NL02ABNA0000000002")
  /\ _load_accounts
       [{| conf_iban := Some (Ok "NL01ABNA0000000001");
           conf_name := Some (Ok "Checking") |};
        {| conf_iban := Some (Ok "NL02ABNA0000000002");
           conf_name := Some (Raise (InterpolationError "'%' must be followed by '%' or '('")) |};
        {| conf_iban := None; conf_name := None |}]
     = Raise (InterpolationError "'%' must be followed by '%' or '('").
Proof.
  split.
  - apply (proj2 (proj2 (_load_accounts_lookup
                    [{| conf_iban := Some (Ok "NL01ABNA0000000001");
                        conf_name := Some (Ok "Old") |};
                     {| conf_iban := Some (Ok "NL02ABNA0000000002");
                        conf_name := None |};
                     {| conf_iban := Some (Ok "NL01ABNA0000000001");
                        conf_name := Some (Ok "Checking") |}]))).
    reflexivity.
  - apply (proj1 (proj2 (_load_accounts_lookup _))).
    exists [{| conf_iban := Some (Ok "NL01ABNA0000000001");
               conf_name := Some (Ok "Checking") |}],
      {| conf_iban := Some (Ok "NL02ABNA0000000002");
         conf_name := Some (Raise (InterpolationError "'%' must be followed by '%' or '('")) |},
      [{| conf_iban := None; conf_name := None |}].
    split; [reflexivity|]. split; [|reflexivity].
    constructor; [reflexivity | constructor].
Defined.

(** ** The test for a structured transfer *)

Section SearchFacts.

Variable R : Type.



End SearchFacts.





(** ** The registry in use *)

Lemma find_rev_some (A : Type) (f : A -> bool) (l : list A) :
  match find f (rev l) with Some _ => true | None => false end = existsb f l.
Proof.
  induction l as [|x l IH]; simpl; [reflexivity|].
  rewrite find_last, <- IH.
  destruct (find f (rev l)); [now rewrite orb_true_r|].
  now destruct (f x).
Qed.

(** X19. With the registry that [_load_accounts] returns, a record is a
    transfer exactly when some section configures its counter account, and
    the header of a configured account shows the name of the last section
    that configures it, or the IBAN itself when that section has no name. *)
Theorem loaded_registry_use (sections : list account_conf) (reg : registry) :
  _load_accounts sections = Ok reg ->
  (forall t,
     is_transfer_transaction reg t
     = match dest_iban t with
       | Some dest => existsb (fun c => configures c dest) sections
       | None => false
       end)
  /\ (forall iban c,
        section_of sections iban = Some c ->
        _get_account reg iban = Ok (display_name c iban)
        /\ header_of reg iban = qif_account_tpl (display_name c iban) "Bank").
Proof.
  intro H. unfold _load_accounts in H. split.
  - intro t. unfold is_transfer_transaction, registry_mem.
    destruct (dest_iban t) as [dest|]; [|reflexivity].
    rewrite (load_sections_lookup sections [] dest H).
    unfold section_of. rewrite <- find_rev_some.
    now destruct (find _ (rev sections)).
  - intros iban c Hc. unfold _get_account, header_of.
    rewrite (load_sections_lookup sections [] iban H), Hc. now split.
Qed.

Lemma loaded_registry_use_witness :
  (forall t,
     is_transfer_transaction
       [("NL01ABNA0000000001", "Checking");
        ("NL02ABNA0000000002", "NL02ABNA0000000002")] t
     = match dest_iban t with
       | Some dest =>
           existsb (fun c => configures c dest)
             [{| conf_iban := Some (Ok "NL01ABNA0000000001");
                 conf_name := Some (Ok "Checking") |};
              {| conf_iban := Some (Ok "NL02ABNA0000000002");
                 conf_name := None |}]
       | None => false
       end)
  /\ (forall iban c,
        section_of
          [{| conf_iban := Some (Ok "NL01ABNA0000000001");
              conf_name := Some (Ok "Checking") |};
           {| conf_iban := Some (Ok "NL02ABNA0000000002"); conf_name := None |}]
          iban = Some c ->
        _get_account
          [("NL01ABNA0000000001", "Checking");
           ("NL02ABNA0000000002", "NL02ABNA0000000002")] iban
        = Ok (display_name c iban)
        /\ header_of
             [("NL01ABNA0000000001", "Checking");
              ("NL02ABNA0000000002", "NL02ABNA0000000002")] iban
           = qif_account_tpl (display_name c iban) "Bank").
Proof.
  apply (@loaded_registry_use
           [{| conf_iban := Some (Ok "NL01ABNA0000000001");
               conf_name := Some (Ok "Checking") |};
            {| conf_iban := Some (Ok "NL02ABNA0000000002"); conf_name := None |}]
           [("NL01ABNA0000000001", "Checking");
            ("NL02ABNA0000000002", "NL02ABNA0000000002")]).
  reflexivity.
Defined.

(** ** [__eq__] as a relation *)

(** What [==] on two floats says. *)
Lemma float_eqb_cases (a b : Float.t) :
  Float.eqb a b = true
  <-> (a = b /\ Float.is_nan a = false)
      \/ (amount_is_zero a = true /\ amount_is_zero b = true).
Proof.
  split.
  - intro H. destruct (amount_is_zero b) eqn:Eb.
    + right. split; [|reflexivity].
      destruct b as [sb|sb| |sb mb eb]; try discriminate.
      destruct a as [sa|sa| |sa ma ea];
        try reflexivity; try discriminate; destruct sa; discriminate.
    + left. pose proof (float_eqb_eq a b H Eb) as ->. split; [reflexivity|].
      destruct b; try reflexivity. discriminate.
  - intros [[-> Hn]|[Ha Hb]].
    + now apply FloatFacts.eqb_refl.
    + destruct a, b; try discriminate. reflexivity.
Qed.

Lemma float_eqb_sym (a b : Float.t) : Float.eqb a b = Float.eqb b a.
Proof.
  destruct (Float.eqb a b) eqn:E1, (Float.eqb b a) eqn:E2; try reflexivity.
  - apply float_eqb_cases in E1. assert (Float.eqb b a = true); [|congruence].
    apply float_eqb_cases. destruct E1 as [[-> Hn]|[Ha Hb]]; [left|right]; easy.
  - apply float_eqb_cases in E2. assert (Float.eqb a b = true); [|congruence].
    apply float_eqb_cases. destruct E2 as [[-> Hn]|[Ha Hb]]; [left|right]; easy.
Qed.

Lemma float_eqb_trans (a b c : Float.t) :
  Float.eqb a b = true -> Float.eqb b c = true -> Float.eqb a c = true.
Proof.
  intros H1 H2. apply float_eqb_cases in H1, H2. apply float_eqb_cases.
  destruct H1 as [[-> Hn1]|[Ha Hb]], H2 as [[-> Hn2]|[Hb' Hc]].
  - now left.
  - now right.
  - now right.
  - now right.
Qed.

Lemma option_eqb_sym (a b : option string) : option_eqb a b = option_eqb b a.
Proof. destruct a, b; simpl; try reflexivity. apply String.eqb_sym. Qed.

Lemma datetime_eqb_sym (a b : datetime) : datetime_eqb a b = datetime_eqb b a.
Proof.
  unfold datetime_eqb.
  now rewrite (Z.eqb_sym (year a)), (Z.eqb_sym (month a)), (Z.eqb_sym (day a)).
Qed.

(** X20. [Trsx.__eq__] is symmetric and transitive, and it is reflexive on
    the records whose amount is not NaN. It holds between two records
    exactly when the fields other than the description and the amount
    coincide and the amounts are the same number that is not NaN, or are
    both zero, whatever their signs. *)
Theorem Trsx_eq_relation :
  (forall a b, Trsx_eq a b = Trsx_eq b a)
  /\ (forall a b c, Trsx_eq a b = true -> Trsx_eq b c = true -> Trsx_eq a c = true)
  /\ (forall a, Trsx_eq a a = negb (Float.is_nan (amount a)))
  /\ (forall a b,
        Trsx_eq a b = true
        <-> source_iban a = source_iban b /\ dest_iban a = dest_iban b
            /\ type a = type b /\ date a = date b
            /\ payee a = payee b /\ memo a = memo b
            /\ ((amount a = amount b /\ Float.is_nan (amount a) = false)
                \/ (amount_is_zero (amount a) = true
                    /\ amount_is_zero (amount b) = true))).
Proof.
  assert (Hiff : forall a b,
             Trsx_eq a b = true
             <-> source_iban a = source_iban b /\ dest_iban a = dest_iban b
                 /\ type a = type b /\ date a = date b
                 /\ Float.eqb (amount a) (amount b) = true
                 /\ payee a = payee b /\ memo a = memo b).
  { intros a b. unfold Trsx_eq.
    rewrite !andb_true_iff, !String.eqb_eq, !option_eqb_eq, datetime_eqb_eq.
    tauto. }
  split; [|split; [|split]].
  - intros a b. unfold Trsx_eq.
    now rewrite (String.eqb_sym (source_iban a)), (String.eqb_sym (type a)),
      (option_eqb_sym (dest_iban a)), (option_eqb_sym (payee a)),
      (option_eqb_sym (memo a)), (datetime_eqb_sym (date a)),
      (float_eqb_sym (amount a)).
  - intros a b c H1 H2. apply Hiff in H1, H2. apply Hiff.
    destruct H1 as (S1 & D1 & T1 & Da1 & A1 & P1 & M1).
    destruct H2 as (S2 & D2 & T2 & Da2 & A2 & P2 & M2).
    repeat split; try congruence. exact (float_eqb_trans _ _ _ A1 A2).
  - intro a. destruct (Float.is_nan (amount a)) eqn:En; simpl.
    + destruct (Trsx_eq a a) eqn:E; [|reflexivity].
      apply Hiff in E. destruct E as (_ & _ & _ & _ & A & _).
      destruct (amount a); discriminate.
    + now apply Trsx_eq_refl.
  - intros a b. rewrite Hiff, float_eqb_cases. tauto.
Qed.
